(** * Verification model of the RAG pipeline of node-rag-ollama

    The module under study is the unnamed source file [part_000]
    (functions [preprocessText], [splitIntoChunks], [getEmbedding],
    [waitForIndex], [addDocument], [addDocuments], [clearIndex],
    [createUserIndex], [deleteUserIndex]).

    JavaScript strings are sequences of UTF-16 code units; they are
    modelled as [list N], one [N] per code unit, and [.length] is
    [List.length]. *)

From Stdlib Require Import List NArith Arith Lia Bool.
From Stdlib Require Import Strings.String Strings.Ascii.
From stdpp Require Import base gmap strings pretty.
Import ListNotations.

(* ================================================================== *)
(** ** Characters *)

Module Text.

Definition jstr := list N.

(** JavaScript [\s] (and the set removed by [String.prototype.trim]):
    WhiteSpace (TAB, VT, FF, SP, NBSP, ZWNBSP and the Zs category) and
    LineTerminator (LF, CR, LS, PS). *)
Definition is_space (c : N) : bool :=
  (c =? 9)%N || (c =? 10)%N || (c =? 11)%N || (c =? 12)%N || (c =? 13)%N ||
  (c =? 32)%N || (c =? 160)%N || (c =? 5760)%N ||
  ((8192 <=? c)%N && (c <=? 8202)%N) ||
  (c =? 8232)%N || (c =? 8233)%N || (c =? 8239)%N || (c =? 8287)%N ||
  (c =? 12288)%N || (c =? 65279)%N.

(** [[a-z]] and [[A-Z]] *)
Definition is_lower (c : N) : bool := (97 <=? c)%N && (c <=? 122)%N.
Definition is_upper (c : N) : bool := (65 <=? c)%N && (c <=? 90)%N.

(** [[.,!?]] *)
Definition is_punct (c : N) : bool :=
  (c =? 46)%N || (c =? 44)%N || (c =? 33)%N || (c =? 63)%N.

(** [[.!?]], the sentence delimiters of [splitIntoChunks] *)
Definition is_delim (c : N) : bool :=
  (c =? 46)%N || (c =? 33)%N || (c =? 63)%N.

Definition SPACE : N := 32.
Definition DOT : N := 46.

Definition starts_with (p : N -> bool) (s : jstr) : bool :=
  match s with c :: _ => p c | [] => false end.

(** ASCII literals, for concrete inputs. *)
Fixpoint of_ascii (s : string) : jstr :=
  match s with
  | EmptyString => []
  | String a r => N.of_nat (nat_of_ascii a) :: of_ascii r
  end.

(* ================================================================== *)
(** ** [preprocessText]

    Each [.replace(/re/g, ...)] is a left-to-right scan that resumes
    after the end of each match; [trim] removes leading and trailing
    [\s] characters. *)

(** [.replace(/([a-z])([A-Z])/g, '$1 $2')]: after a match the scan
    resumes after the upper-case letter. *)
Fixpoint camel (s : jstr) : jstr :=
  match s with
  | a :: (b :: rest) as t =>
      if is_lower a && is_upper b then a :: SPACE :: b :: camel rest
      else a :: camel t
  | _ => s
  end.

(** [.replace(/\s+/g, ' ')]: each maximal run of [\s] becomes one space.
    A whitespace character followed by another one belongs to the same
    run, so only the last character of the run emits the space. *)
Fixpoint collapse (s : jstr) : jstr :=
  match s with
  | [] => []
  | c :: t =>
      if is_space c then
        (if starts_with is_space t then collapse t else SPACE :: collapse t)
      else c :: collapse t
  end.

(** [.replace(/\s+([.,!?])/g, '$1')]: the leftmost match starts at the
    first character of a whitespace run (the greedy [\s+] takes the
    whole run), so a whitespace run followed by [[.,!?]] is deleted and
    every other run is kept.  Right to left: a whitespace character is
    dropped exactly when the processed remainder starts with
    punctuation (the rest of its run has been dropped already). *)
Fixpoint strip_before_punct (s : jstr) : jstr :=
  match s with
  | [] => []
  | c :: t =>
      let r := strip_before_punct t in
      if is_space c && starts_with is_punct r then r else c :: r
  end.

(** [.replace(/([.,!?])([^\s])/g, '$1 $2')]: after a match the scan
    resumes after the second character, which is therefore never the
    [$1] of another match. *)
Fixpoint space_after_punct (s : jstr) : jstr :=
  match s with
  | p :: (c :: rest) as t =>
      if is_punct p && negb (is_space c) then p :: SPACE :: c :: space_after_punct rest
      else p :: space_after_punct t
  | _ => s
  end.

Fixpoint ltrim (s : jstr) : jstr :=
  match s with
  | c :: t => if is_space c then ltrim t else s
  | [] => []
  end.

Fixpoint rtrim (s : jstr) : jstr :=
  match s with
  | [] => []
  | c :: t =>
      let r := rtrim t in
      match r with
      | [] => if is_space c then [] else [c]
      | _ => c :: r
      end
  end.

(** [String.prototype.trim] *)
Definition trim (s : jstr) : jstr := rtrim (ltrim s).

Definition preprocessText (text : jstr) : jstr :=
  trim (space_after_punct (strip_before_punct (collapse (camel text)))).

(* ================================================================== *)
(** ** [splitIntoChunks] *)

(** [s.split(/[.!?]+/)]: each maximal run of delimiters separates two
    pieces; the empty string gives [[""]]. *)
Fixpoint split_delims (s : jstr) : list jstr :=
  match s with
  | [] => [[]]
  | c :: t =>
      if is_delim c then
        (if starts_with is_delim t then split_delims t else [] :: split_delims t)
      else
        match split_delims t with
        | p :: ps => (c :: p) :: ps
        | [] => [[c]]
        end
  end.

Definition is_nil {A} (l : list A) : bool :=
  match l with [] => true | _ => false end.

(** The [for (const sentence of sentences)] loop, with [currentChunk]
    as [cur]; the final [if (currentChunk) chunks.push(...)] is the
    [[]] case. *)
Fixpoint chunk_loop (size : nat) (cur : jstr) (sentences : list jstr) : list jstr :=
  match sentences with
  | [] => if is_nil cur then [] else [cur ++ [DOT]]
  | sentence :: rest =>
      let trimmedSentence := trim sentence in
      if is_nil trimmedSentence then chunk_loop size cur rest
      else if length cur + length trimmedSentence + 1 <=? size then
        chunk_loop size
          (cur ++ (if is_nil cur then [] else [DOT; SPACE]) ++ trimmedSentence) rest
      else
        (if is_nil cur then [] else [cur ++ [DOT]]) ++
        chunk_loop size trimmedSentence rest
  end.

Definition splitIntoChunks (text : jstr) (size : nat) : list jstr :=
  chunk_loop size [] (split_delims (preprocessText text)).

Definition CHUNK_SIZE : nat := 1000.

(** The sentences the chunker works on: the non-empty trimmed pieces. *)
Definition sentences_of (pieces : list jstr) : list jstr :=
  List.filter (fun t => negb (is_nil t)) (List.map trim pieces).

(** How a group of sentences is rendered as one chunk. *)
Fixpoint join_sentences (g : list jstr) : jstr :=
  match g with
  | [] => []
  | [s] => s
  | s :: rest => s ++ [DOT; SPACE] ++ join_sentences rest
  end.

Definition render (g : list jstr) : jstr := join_sentences g ++ [DOT].

(** Shapes of normalised text, used in the proofs. *)
Definition all_space (l : jstr) : bool := forallb is_space l.

(** no whitespace character immediately before [[.,!?]] *)
Fixpoint no_space_before_punct (s : jstr) : bool :=
  match s with
  | [] => true
  | c :: t => negb (is_space c && starts_with is_punct t) && no_space_before_punct t
  end.

Definition lu_head (a : N) (t : jstr) : bool :=
  match t with b :: _ => negb (is_lower a && is_upper b) | [] => true end.

(** no lower-case letter immediately followed by an upper-case one *)
Fixpoint lu_free (s : jstr) : bool :=
  match s with [] => true | a :: t => lu_head a t && lu_free t end.

(** every whitespace character is a plain space, and none is followed by
    another whitespace character *)
Fixpoint single_spaced (s : jstr) : bool :=
  match s with
  | [] => true
  | c :: t =>
      (if is_space c then (c =? SPACE)%N && negb (starts_with is_space t) else true) &&
      single_spaced t
  end.

(** the last character, if any, is not whitespace *)
Fixpoint last_ok (s : jstr) : bool :=
  match s with
  | [] => true
  | [c] => negb (is_space c)
  | _ :: t => last_ok t
  end.

Definition trimmed (s : jstr) : bool := negb (starts_with is_space s) && last_ok s.

Definition delim_free (s : jstr) : bool := forallb (fun c => negb (is_delim c)) s.

(** What the chunker keeps of a sentence: non-empty, trimmed and free of
    delimiters. *)
Definition good_sentence (s : jstr) : Prop :=
  s <> [] /\ trim s = s /\ delim_free s = true.

End Text.

(* ================================================================== *)
(** ** The service layer: external clients and the world they act on *)

Module Rag.
Import Text.

Local Open Scope string_scope.

Definition OLLAMA_API : string := "http://localhost:11434".
Definition MODEL_EMBEDDING : string := "llama3.2".
Definition INDEX_NAME : string := "rag-docs-llama".

(** JavaScript values as far as the code inspects them.  Numbers occur
    only as payload (embedding components, HTTP status codes); their
    value plays no role in the claims and is kept as a [Z]. *)
#[warnings="-register-all"]
Inductive jsval :=
| JUndefined
| JNull
| JBool (b : bool)
| JNum (n : Z)
| JStr (s : jstr)
| JArr (xs : list jsval)
| JObj (fields : list (string * jsval)).

(** JavaScript truthiness ([!v] is [negb (truthy v)]). *)
Definition truthy (v : jsval) : bool :=
  match v with
  | JUndefined | JNull => false
  | JBool b => b
  | JNum n => negb (n =? 0)%Z
  | JStr s => negb (is_nil s)
  | JArr _ | JObj _ => true
  end.

(** [Array.isArray] *)
Definition is_array (v : jsval) : bool :=
  match v with JArr _ => true | _ => false end.

(** Exceptions: [new Error(message)], the [TypeError] of a property
    read on [null]/[undefined], and the rejection of an external call
    (connection failure, service-side error), kept opaque. *)
Inductive exn :=
| Error (message : string)
| TypeError
| Rejected (reason : string).

Inductive res (A : Type) :=
| Ok (a : A)
| Err (e : exn).
Arguments Ok {A} a.
Arguments Err {A} e.

(** A record as upserted by [addDocument]: [id], [values] and the
    [metadata] object (caller metadata, then [text], [chunkIndex],
    [totalChunks], [timestamp] and [userId]).  The timestamp is kept as
    the millisecond clock value [new Date()] reads. *)
Record StoredRecord := mkRecord {
  rec_id : string;
  rec_values : jsval;
  rec_meta : list (string * jsval);
  rec_text : jstr;
  rec_chunkIndex : nat;
  rec_totalChunks : nat;
  rec_timestamp : N;
  rec_userId : string
}.

(** Calls to the external services, in the order they are issued. *)
Inductive call :=
| CallFetch (url : string) (body : jsval)
| CallDescribe (name : string)
| CallCreate (name : string) (dimension : N) (metric : string)
| CallUpsert (namespace : string) (r : StoredRecord)
| CallDeleteAll (namespace : string)
| CallSleep (ms : N).

(** The state the pipeline observes and changes: the records of the
    shared index by namespace and id, the index configuration
    (dimension, metric) once created, the millisecond clock
    [Date.now()], and the calls issued so far. *)
Record World := mkWorld {
  store : gmap string (gmap string StoredRecord);
  index_cfg : option (N * string);
  now : N;
  calls : list call
}.

(** The answer of [fetch]: the status code and the outcome of
    [response.json()]. *)
Record Response := mkResponse {
  resp_status : N;
  resp_json : res jsval
}.

(** [response.ok] *)
Definition resp_ok (r : Response) : bool :=
  (200 <=? resp_status r)%N && (resp_status r <=? 299)%N.

(** [pinecone.describeIndex(name)]: [status_ready] is the value of
    [description.status?.ready]. *)
Record Description := mkDescription { status_ready : jsval }.

(** The behaviour of the external services (Ollama over HTTP, the
    Pinecone client), as arbitrary functions of the world (which holds
    the clock and the calls made so far, so answers may vary from call
    to call).  [None] means success for the calls without a result;
    [latency] is the time a call takes. *)
Record Services := mkServices {
  fetch_svc : World -> string -> jsval -> res Response;
  describe_svc : World -> string -> res Description;
  create_svc : World -> option exn;
  upsert_svc : World -> string -> StoredRecord -> option exn;
  deleteAll_svc : World -> string -> option exn;
  latency : World -> call -> N
}.

(** [{ success, message }] *)
Record OpResult := mkOpResult { success : bool; message : string }.

(** [{ success, message, chunks }] of [addDocument] *)
Record AddResult := mkAddResult {
  add_success : bool;
  add_message : string;
  add_chunks_out : list (string * jstr)
}.

(** ---- the state and error monad ---- *)

Definition M (A : Type) := World -> res A * World.

Definition ret {A} (a : A) : M A := fun w => (Ok a, w).

Definition bind {A B} (m : M A) (k : A -> M B) : M B :=
  fun w => match m w with
           | (Ok a, w') => k a w'
           | (Err e, w') => (Err e, w')
           end.

Definition throw {A} (e : exn) : M A := fun w => (Err e, w).

(** [try { m } catch (error) { h(error) }] *)
Definition try_catch {A} (m : M A) (h : exn -> M A) : M A :=
  fun w => match m w with
           | (Err e, w') => h e w'
           | r => r
           end.

Definition lift {A} (r : res A) : M A := fun w => (r, w).

Notation "'let*' x ':=' m 'in' k" := (bind m (fun x => k))
  (at level 200, x name, m at level 100, k at level 200).

Section Pipeline.
Variable svc : Services.

Definition tick (w : World) (c : call) : World :=
  mkWorld (store w) (index_cfg w) (now w + latency svc w c)%N (calls w ++ [c]).

Definition fetch (url : string) (body : jsval) : M Response :=
  fun w => (fetch_svc svc w url body, tick w (CallFetch url body)).

Definition describeIndex (name : string) : M Description :=
  fun w => (describe_svc svc w name, tick w (CallDescribe name)).

Definition createIndex (name : string) (dimension : N) (metric : string) : M unit :=
  fun w =>
    let w' := tick w (CallCreate name dimension metric) in
    match create_svc svc w with
    | None => (Ok tt, mkWorld (store w') (Some (dimension, metric)) (now w') (calls w'))
    | Some e => (Err e, w')
    end.

(** [index.namespace(ns).upsert([r])]: inserts or replaces the record
    with id [rec_id r] of namespace [ns]. *)
Definition upsert (ns : string) (r : StoredRecord) : M unit :=
  fun w =>
    let w' := tick w (CallUpsert ns r) in
    match upsert_svc svc w ns r with
    | None =>
        let m := default ∅ (store w !! ns) in
        (Ok tt, mkWorld (<[ns := <[rec_id r := r]> m]> (store w)) (index_cfg w') (now w') (calls w'))
    | Some e => (Err e, w')
    end.

(** [index.namespace(ns).deleteAll()] *)
Definition deleteAll (ns : string) : M unit :=
  fun w =>
    let w' := tick w (CallDeleteAll ns) in
    match deleteAll_svc svc w ns with
    | None => (Ok tt, mkWorld (delete ns (store w)) (index_cfg w') (now w') (calls w'))
    | Some e => (Err e, w')
    end.

(** [await new Promise(resolve => setTimeout(resolve, ms))] *)
Definition sleep (ms : N) : M unit :=
  fun w => (Ok tt, mkWorld (store w) (index_cfg w) (now w + ms)%N (calls w ++ [CallSleep ms])).

(** [Date.now()] (and [new Date()]) *)
Definition date_now : M N := fun w => (Ok (now w), w).

(** [getIndex()]: [pinecone.index(INDEX_NAME)] builds a handle locally. *)
Definition getIndex : M unit := ret tt.

(** Property read [v.key]; reading a property of [null] or [undefined]
    throws.  [JSON.parse] keeps the last of duplicate keys. *)
Definition lookup_field (fields : list (string * jsval)) (key : string) : jsval :=
  match List.find (fun kv => String.eqb (fst kv) key) (rev fields) with
  | Some kv => snd kv
  | None => JUndefined
  end.

Definition get_prop (v : jsval) (key : string) : M jsval :=
  match v with
  | JUndefined | JNull => throw TypeError
  | JObj fields => ret (lookup_field fields key)
  | _ => ret JUndefined
  end.

(** ---- [getEmbedding] ---- *)

Definition embeddings_url : string := OLLAMA_API ++ "/api/embeddings".

Definition embedding_request (text : jstr) : jsval :=
  JObj [("model", JStr (of_ascii MODEL_EMBEDDING)); ("prompt", JStr text)].

Definition invalid_embedding : exn := Error "Invalid embedding format received from Ollama".

Definition http_error (status : N) : exn := Error ("HTTP error! status: " ++ pretty status).

Definition getEmbedding (text : jstr) : M jsval :=
  try_catch
    (let* response := fetch embeddings_url (embedding_request text) in
     if negb (resp_ok response) then throw (http_error (resp_status response))
     else
       let* data := lift (resp_json response) in
       let* embedding := get_prop data "embedding" in
       if negb (truthy embedding) || negb (is_array embedding) then throw invalid_embedding
       else ret embedding)
    (fun error => throw error).

(** ---- [waitForIndex] ---- *)

Definition not_ready_error (maxAttempts : nat) : exn :=
  Error ("Index " ++ INDEX_NAME ++ " not ready after " ++ pretty maxAttempts ++ " attempts").

(** One iteration's [try] block: [true] when it returns. *)
Definition poll_once : M bool :=
  try_catch
    (let* description := describeIndex INDEX_NAME in
     ret (truthy (status_ready description)))
    (fun _ => ret false).

(** The loop with [n] iterations left. *)
Fixpoint wait_loop (maxAttempts : nat) (n : nat) : M bool :=
  match n with
  | O => throw (not_ready_error maxAttempts)
  | S n' =>
      let* ready := poll_once in
      if ready then ret true
      else let* _ := sleep 2000 in wait_loop maxAttempts n'
  end.

Definition waitForIndex (maxAttempts : nat) : M bool := wait_loop maxAttempts maxAttempts.

(** ---- ingestion ---- *)

Definition chunk_id (t : N) (i : nat) : string :=
  "doc_" ++ pretty t ++ "_chunk_" ++ pretty i.

(** The body of [for (let i = 0; i < chunks.length; i++)] for chunk
    number [i]. *)
Definition add_chunk (userId : string) (metadata : list (string * jsval))
    (total : nat) (i : nat) (chunk : jstr) : M (string * jstr) :=
  let* embedding := getEmbedding chunk in
  let* t := date_now in
  let id := chunk_id t i in
  let* _ := upsert userId (mkRecord id embedding metadata chunk i total t userId) in
  ret (id, chunk).

(** The loop from chunk number [i] on, collecting [results]. *)
Fixpoint add_chunks (userId : string) (metadata : list (string * jsval))
    (total : nat) (i : nat) (chunks : list jstr) : M (list (string * jstr)) :=
  match chunks with
  | [] => ret []
  | chunk :: rest =>
      let* result := add_chunk userId metadata total i chunk in
      let* results := add_chunks userId metadata total (S i) rest in
      ret (result :: results)
  end.

Definition addDocument (userId : string) (text : jstr) (metadata : list (string * jsval))
    : M AddResult :=
  try_catch
    (let* _ := getIndex in
     let chunks := splitIntoChunks text CHUNK_SIZE in
     let* results := add_chunks userId metadata (length chunks) 0 chunks in
     ret (mkAddResult true ("Added document with " ++ pretty (length chunks) ++ " chunks") results))
    (fun error => throw error).

Fixpoint add_docs (userId : string) (documents : list jstr) (metadata : list (string * jsval))
    : M (list AddResult) :=
  match documents with
  | [] => ret []
  | doc :: rest =>
      let* result := addDocument userId doc metadata in
      let* results := add_docs userId rest metadata in
      ret (result :: results)
  end.

Definition addDocuments (userId : string) (documents : list jstr)
    (metadata : list (string * jsval)) : M (list AddResult) :=
  try_catch (add_docs userId documents metadata) (fun error => throw error).

(** ---- namespace lifecycle ---- *)

Definition clearIndex (userId : string) : M OpResult :=
  try_catch
    (let* _ := getIndex in
     let* _ := deleteAll userId in
     ret (mkOpResult true ("Documents cleared successfully for user " ++ userId)))
    (fun error => throw error).

Definition createUserIndex (userId : string) : M OpResult :=
  try_catch
    (try_catch
       (let* _ := describeIndex INDEX_NAME in
        ret (mkOpResult true ("Index ready for user " ++ userId)))
       (fun _ =>
          let* _ := createIndex INDEX_NAME 4096 "cosine" in
          let* _ := waitForIndex 10 in
          ret (mkOpResult true ("Created index and ready for user " ++ userId))))
    (fun error => throw error).

Definition deleteUserIndex (userId : string) : M OpResult :=
  try_catch
    (let* _ := clearIndex userId in
     ret (mkOpResult true ("Deleted all documents for user " ++ userId)))
    (fun error => throw error).

(** ---- observations used to state properties ---- *)

(** The record stored under [id] in namespace [ns]. *)
Definition stored (w : World) (ns id : string) : option StoredRecord :=
  default ∅ (store w !! ns) !! id.

(** Whether one [waitForIndex] attempt made in world [w] sees the index
    ready. *)
Definition ready_at (w : World) : bool :=
  match describe_svc svc w INDEX_NAME with
  | Ok d => truthy (status_ready d)
  | Err _ => false
  end.

(** The world after an attempt that did not see the index ready: the
    [describeIndex] call, then the two-second pause. *)
Definition next_attempt (w : World) : World :=
  snd (sleep 2000 (tick w (CallDescribe INDEX_NAME))).

(** The world in which attempt number [j] (from 0) starts. *)
Fixpoint attempt_world (j : nat) (w : World) : World :=
  match j with
  | O => w
  | S j' => attempt_world j' (next_attempt w)
  end.

End Pipeline.

(** Whether a string contains no underscore. *)
Fixpoint no_underscore (s : string) : bool :=
  match s with
  | EmptyString => true
  | String c s' => negb (Ascii.eqb c "_"%char) && no_underscore s'
  end.

(** ---- a concrete deployment, to run the pipeline on ---- *)

(** Services that answer every call successfully and instantly: HTTP 200
    with the embedding [[1]], an index that is ready. *)
Definition instant_services : Services :=
  mkServices
    (fun _ _ _ => Ok (mkResponse 200 (Ok (JObj [("embedding", JArr [JNum 1])]))))
    (fun _ _ => Ok (mkDescription (JBool true)))
    (fun _ => None)
    (fun _ _ _ => None)
    (fun _ _ => None)
    (fun _ _ => 0%N).

(** An empty store at clock value 1700000000000 ms. *)
Definition world0 : World := mkWorld ∅ None 1700000000000%N [].

(** Two documents of one user, ingested one after the other in the
    concrete deployment. *)
Definition first_doc : jstr := of_ascii "First document.".
Definition second_doc : jstr := of_ascii "Second document.".

(** [C7]'s counterexample deployment: a 200 answer whose [embedding]
    field is an array of strings. *)
Definition string_array_services : Services :=
  mkServices
    (fun _ _ _ => Ok (mkResponse 200 (Ok (JObj [("embedding", JArr [JStr (of_ascii "a")])]))))
    (fun _ _ => Ok (mkDescription (JBool true)))
    (fun _ => None) (fun _ _ _ => None) (fun _ _ => None) (fun _ _ => 0%N).

End Rag.

(* ================================================================== *)
(** ** Retrieval, question answering and PDF ingestion *)

Module Retrieval.
Import Text Rag.

Local Open Scope string_scope.
Local Open Scope list_scope.

Definition MODEL_GENERATION : string := "llama3.2".

(** [Array.prototype.join(sep)] on strings already converted. *)
Fixpoint join_with (sep : jstr) (l : list jstr) : jstr :=
  match l with
  | [] => []
  | [x] => x
  | x :: rest => x ++ sep ++ join_with sep rest
  end.

(** JavaScript [ToString] on the values of the model (numbers are the
    model's integers, printed in decimal); an array is joined with
    [","], its [null] and [undefined] elements giving the empty string. *)
Fixpoint to_js_string (v : jsval) : jstr :=
  match v with
  | JUndefined => of_ascii "undefined"
  | JNull => of_ascii "null"
  | JBool true => of_ascii "true"
  | JBool false => of_ascii "false"
  | JNum n => of_ascii (pretty n)
  | JStr s => s
  | JArr xs =>
      join_with [44%N]
        ((fix elems (l : list jsval) : list jstr :=
            match l with
            | [] => []
            | x :: rest =>
                match x with
                | JUndefined | JNull => []
                | _ => to_js_string x
                end :: elems rest
            end) xs)
  | JObj _ => of_ascii "[object Object]"
  end.

(** An element as [Array.prototype.join] converts it. *)
Definition join_element (v : jsval) : jstr :=
  match v with
  | JUndefined | JNull => []
  | _ => to_js_string v
  end.

(** [{ text, similarity, metadata }] built from one query match. *)
Record SimilarDoc := mkSimilarDoc {
  doc_text : jsval;
  doc_similarity : jsval;
  doc_metadata : jsval
}.

(** [{ question, relevantDocuments, answer }] *)
Record AskResult := mkAskResult {
  ask_question : jstr;
  relevantDocuments : list SimilarDoc;
  answer : jsval
}.

Definition LF : N := 10.

Definition generate_url : string := (OLLAMA_API ++ "/api/generate")%string.

Definition rule : jstr := repeat 45%N 107.

(** The template literal of [askQuestion]. *)
Definition generation_prompt (context question : jstr) : jstr :=
  [LF] ++ of_ascii "System Prompt:" ++ [LF] ++
  of_ascii "You are a AI journalist that answers questions based on the provided context" ++
  [LF] ++ rule ++ [LF] ++ of_ascii "Context:" ++ [LF] ++ context ++ [LF] ++
  rule ++ [LF] ++ of_ascii "Question:" ++ [LF] ++ question ++ [LF] ++ rule ++ [LF].

Definition generation_request (context question : jstr) : jsval :=
  JObj [("model", JStr (of_ascii MODEL_GENERATION));
        ("prompt", JStr (generation_prompt context question));
        ("stream", JBool false)].

(** [similarDocs.map(doc => doc.text).join('\n\n')] *)
Definition context_of (docs : list SimilarDoc) : jstr :=
  join_with [LF; LF] (map (fun d => join_element (doc_text d)) docs).

Definition pdf_failure : exn := Error "Failed to process PDF file".

(** The bytes of an uploaded file. *)
Definition buffer := list N.

Section Retrieval.
Variable svc : Services.
(** [index.namespace(ns).query(request)]: the answer of the vector
    store, a read that changes nothing. *)
Variable query_svc : World -> string -> jsval -> res jsval.
(** [pdfParse(buffer)]: the parsed document, a local computation. *)
Variable pdfParse : buffer -> res jsval.

Definition query (ns : string) (request : jsval) : M jsval :=
  fun w => (query_svc w ns request, w).

(** [queryResult.matches.map(match => ({ ... }))] *)
Fixpoint map_matches (matches : list jsval) : M (list SimilarDoc) :=
  match matches with
  | [] => ret []
  | m :: rest =>
      let* metadata := get_prop m "metadata" in
      let* text := get_prop metadata "text" in
      let* score := get_prop m "score" in
      let* docs := map_matches rest in
      ret (mkSimilarDoc text score metadata :: docs)
  end.

Definition findSimilarDocuments (userId : string) (q : jstr) (topK : nat)
    : M (list SimilarDoc) :=
  try_catch
    (let* _ := getIndex in
     let* queryEmbedding := getEmbedding svc q in
     let* queryResult := query userId
          (JObj [("vector", queryEmbedding); ("topK", JNum (Z.of_nat topK));
                 ("includeMetadata", JBool true)]) in
     let* matches := get_prop queryResult "matches" in
     match matches with
     | JArr ms => map_matches ms
     | _ => throw TypeError
     end)
    (fun error => throw error).

(** The [similarDocs.forEach] of the printing branch: [doc.text.slice]
    needs a string or an array, [doc.similarity.toFixed] a number. *)
Fixpoint print_docs (docs : list SimilarDoc) : M unit :=
  match docs with
  | [] => ret tt
  | d :: rest =>
      let* _ := match doc_text d with
                | JStr _ | JArr _ => ret tt
                | _ => throw TypeError
                end in
      let* _ := match doc_similarity d with
                | JNum _ => ret tt
                | _ => throw TypeError
                end in
      print_docs rest
  end.

(** [askQuestion]: [Some] is the object returned with [returnData],
    [None] the [undefined] of the printing branch. *)
Definition askQuestion (userId : string) (question : jstr) (returnData : bool)
    : M (option AskResult) :=
  try_catch
    (let* similarDocs := findSimilarDocuments userId question 3 in
     let context := context_of similarDocs in
     let* response := fetch svc generate_url (generation_request context question) in
     if negb (resp_ok response) then throw (http_error (resp_status response))
     else
       let* result := lift (resp_json response) in
       if returnData then
         let* ans := get_prop result "response" in
         ret (Some (mkAskResult question similarDocs ans))
       else
         let* _ := print_docs similarDocs in
         let* _ := get_prop result "response" in
         ret None)
    (fun error => throw error).

(** [processPdfBuffer]: [preprocessText(data.text)] throws unless the
    text is a string; every failure becomes the same error. *)
Definition processPdfBuffer (pdfBuffer : buffer) : M jstr :=
  try_catch
    (let* data := lift (pdfParse pdfBuffer) in
     let* text := get_prop data "text" in
     match text with
     | JStr s => ret (preprocessText s)
     | _ => throw TypeError
     end)
    (fun _ => throw pdf_failure).

(** [addPdfDocument]: [{ ...metadata, documentType: 'pdf' }] *)
Definition addPdfDocument (userId : string) (pdfBuffer : buffer)
    (metadata : list (string * jsval)) : M AddResult :=
  try_catch
    (let* text := processPdfBuffer pdfBuffer in
     addDocument svc userId text (metadata ++ [("documentType", JStr (of_ascii "pdf"))]))
    (fun error => throw error).

End Retrieval.

(** A parser that reads the text [Hello world.] from any buffer, to run
    [addPdfDocument] on. *)
Definition hello_pdf (_ : buffer) : res jsval :=
  Ok (JObj [("text", JStr (of_ascii "Hello world."))]).

(** An index whose every query returns one match, with text [Hello.]
    and score 1. *)
Definition one_match_query (_ : World) (_ : string) (_ : jsval) : res jsval :=
  Ok (JObj [("matches", JArr [JObj [("metadata", JObj [("text", JStr (of_ascii "Hello."))]);
                                    ("score", JNum 1)]])]).

End Retrieval.

(* ================================================================== *)
(** ** Facts about the normaliser *)

Module TextFacts.
Import Text.

Lemma list_pair_ind {A} (P : list A -> Prop) :
  P [] -> (forall x, P [x]) ->
  (forall x y r, P r -> P (y :: r) -> P (x :: y :: r)) ->
  forall l, P l.
Proof.
  intros H0 H1 H2 l.
  enough (P l /\ forall x, P (x :: l)) by tauto.
  induction l as [|a l [IH1 IH2]]; split; auto.
Qed.

Lemma space_not_punct c : is_space c = true -> is_punct c = false.
Proof.
  unfold is_space, is_punct; intros H.
  repeat rewrite orb_true_iff in H; rewrite !andb_true_iff in H.
  rewrite !N.eqb_eq, !N.leb_le in H.
  apply not_true_is_false; rewrite !orb_true_iff, !N.eqb_eq; lia.
Qed.

Lemma space_not_upper c : is_space c = true -> is_upper c = false.
Proof.
  unfold is_space, is_upper; intros H.
  repeat rewrite orb_true_iff in H; rewrite !andb_true_iff in H.
  rewrite !N.eqb_eq, !N.leb_le in H.
  apply not_true_is_false; rewrite andb_true_iff, !N.leb_le; lia.
Qed.

Lemma punct_not_upper c : is_punct c = true -> is_upper c = false.
Proof.
  unfold is_punct, is_upper; intros H.
  rewrite !orb_true_iff, !N.eqb_eq in H.
  apply not_true_is_false; rewrite andb_true_iff, !N.leb_le; lia.
Qed.

Lemma punct_not_lower c : is_punct c = true -> is_lower c = false.
Proof.
  unfold is_punct, is_lower; intros H.
  rewrite !orb_true_iff, !N.eqb_eq in H.
  apply not_true_is_false; rewrite andb_true_iff, !N.leb_le; lia.
Qed.

Lemma upper_not_lower c : is_upper c = true -> is_lower c = false.
Proof.
  unfold is_upper, is_lower; rewrite andb_true_iff, !N.leb_le; intros H.
  apply not_true_is_false; rewrite andb_true_iff, !N.leb_le; lia.
Qed.

Lemma space_space : is_space SPACE = true.
Proof. reflexivity. Qed.

Lemma punct_space c : is_punct c = true -> is_space c = false.
Proof.
  intros H; destruct (is_space c) eqn:E; auto.
  rewrite (space_not_punct c E) in H; discriminate.
Qed.

(** ---- [space_after_punct] ---- *)

Lemma sap_cons_nonpunct x t :
  is_punct x = false -> space_after_punct (x :: t) = x :: space_after_punct t.
Proof. intros H; destruct t; simpl; rewrite ?H; reflexivity. Qed.

Lemma sap_head x t : exists r, space_after_punct (x :: t) = x :: r.
Proof.
  destruct t as [|y r]; simpl; [eauto|].
  destruct (is_punct x && negb (is_space y)); eauto.
Qed.

Lemma sap_hd t : hd_error (space_after_punct t) = hd_error t.
Proof. destruct t as [|x t]; [reflexivity|]. destruct (sap_head x t) as [r ->]; reflexivity. Qed.

Lemma sap_all_space L X :
  all_space L = true -> space_after_punct (L ++ X) = L ++ space_after_punct X.
Proof.
  induction L as [|c L IH]; intros H; [reflexivity|].
  simpl in H; apply andb_true_iff in H as [Hc HL].
  change ((c :: L) ++ X) with (c :: (L ++ X)).
  rewrite sap_cons_nonpunct by (apply space_not_punct; exact Hc).
  rewrite IH by exact HL; reflexivity.
Qed.

Lemma sap_all_space_id R : all_space R = true -> space_after_punct R = R.
Proof.
  intros HR; pose proof (sap_all_space R [] HR) as E.
  rewrite !app_nil_r in E; exact E.
Qed.

Lemma sap_app_space m R :
  all_space R = true -> space_after_punct (m ++ R) = space_after_punct m ++ R.
Proof.
  intros HR; induction m as [|x|x y r IH1 IH2] using list_pair_ind.
  - apply sap_all_space_id; exact HR.
  - destruct R as [|c R']; [reflexivity|].
    pose proof HR as HR0; simpl in HR; apply andb_true_iff in HR as [Hc HR'].
    change (space_after_punct (x :: c :: R') = x :: c :: R').
    change (space_after_punct (x :: c :: R')) with
      (if is_punct x && negb (is_space c) then x :: SPACE :: c :: space_after_punct R'
       else x :: space_after_punct (c :: R')).
    rewrite Hc, andb_false_r, (sap_all_space_id (c :: R') HR0); reflexivity.
  - simpl. destruct (is_punct x && negb (is_space y)).
    + rewrite IH1; reflexivity.
    + simpl in IH2; rewrite IH2; reflexivity.
Qed.

(** ---- [strip_before_punct] ---- *)

Lemma sbp_cons_nonspace c t :
  is_space c = false -> strip_before_punct (c :: t) = c :: strip_before_punct t.
Proof. intros H; simpl; rewrite H; reflexivity. Qed.

Lemma sbp_nil t : strip_before_punct t = [] -> t = [].
Proof.
  induction t as [|c t IH]; simpl; [auto|].
  destruct (is_space c && starts_with is_punct (strip_before_punct t)) eqn:E;
    [|discriminate].
  intros H; rewrite H in E; rewrite andb_false_r in E; discriminate.
Qed.

Lemma sbp_all_space R : all_space R = true -> strip_before_punct R = R.
Proof.
  induction R as [|c R IH]; simpl; intros H; [reflexivity|].
  apply andb_true_iff in H as [Hc HR]; rewrite IH by exact HR.
  destruct R as [|d R']; simpl; [rewrite andb_false_r; reflexivity|].
  simpl in HR; apply andb_true_iff in HR as [Hd _].
  rewrite (space_not_punct d Hd), andb_false_r; reflexivity.
Qed.

Lemma starts_with_app_space A R :
  all_space R = true ->
  starts_with is_punct (A ++ R) = starts_with is_punct A.
Proof.
  intros HR; destruct A as [|a A]; [|reflexivity].
  destruct R as [|c R]; [reflexivity|].
  simpl in HR |- *; apply andb_true_iff in HR as [Hc _].
  apply space_not_punct; exact Hc.
Qed.

Lemma sbp_app_space m R :
  all_space R = true -> strip_before_punct (m ++ R) = strip_before_punct m ++ R.
Proof.
  intros HR; induction m as [|c t IH]; simpl.
  - apply sbp_all_space; exact HR.
  - rewrite IH, starts_with_app_space by exact HR.
    destruct (is_space c && starts_with is_punct (strip_before_punct t)); reflexivity.
Qed.

Lemma sbp_space_prefix L X :
  all_space L = true ->
  exists L', all_space L' = true /\ strip_before_punct (L ++ X) = L' ++ strip_before_punct X.
Proof.
  induction L as [|c L IH]; simpl; intros H.
  - exists []; auto.
  - apply andb_true_iff in H as [Hc HL]. destruct (IH HL) as [L' [HL' E]].
    rewrite E.
    destruct (is_space c && starts_with is_punct (L' ++ strip_before_punct X)).
    + exists L'; auto.
    + exists (c :: L'); simpl; rewrite Hc, HL'; auto.
Qed.

(** ---- [trim] ---- *)

Lemma ltrim_all_space L X : all_space L = true -> ltrim (L ++ X) = ltrim X.
Proof.
  induction L as [|c L IH]; simpl; intros H; [reflexivity|].
  apply andb_true_iff in H as [Hc HL]; rewrite Hc; apply IH; exact HL.
Qed.

Lemma ltrim_app_space m R :
  all_space R = true ->
  exists R', all_space R' = true /\ ltrim (m ++ R) = ltrim m ++ R'.
Proof.
  intros HR; induction m as [|c t IH]; simpl.
  - exists []; split; [reflexivity|].
    rewrite <- (app_nil_r R) at 1; rewrite ltrim_all_space by exact HR; reflexivity.
  - destruct (is_space c); [exact IH|]. exists R; auto.
Qed.

Lemma rtrim_app_space m R : all_space R = true -> rtrim (m ++ R) = rtrim m.
Proof.
  intros HR; induction m as [|c t IH]; simpl.
  - induction R as [|d R IHR]; simpl; [reflexivity|].
    simpl in HR; apply andb_true_iff in HR as [Hd HR'].
    rewrite (IHR HR'), Hd; reflexivity.
  - rewrite IH; reflexivity.
Qed.

Lemma last_ok_cons c t : t <> [] -> last_ok (c :: t) = last_ok t.
Proof. destruct t; [congruence|reflexivity]. Qed.

Lemma last_ok_app A m : m <> [] -> last_ok (A ++ m) = last_ok m.
Proof.
  intros Hm; induction A as [|a A IH]; [reflexivity|].
  change ((a :: A) ++ m) with (a :: (A ++ m)).
  rewrite last_ok_cons by (destruct A, m; simpl; congruence).
  exact IH.
Qed.

Lemma rtrim_last_ok m : last_ok m = true -> rtrim m = m.
Proof.
  induction m as [|c t IH]; simpl; [reflexivity|].
  destruct t as [|d t'].
  - intros H; simpl. destruct (is_space c); [discriminate|reflexivity].
  - intros H; rewrite (IH H). reflexivity.
Qed.

Lemma trim_trimmed m : trimmed m = true -> trim m = m.
Proof.
  unfold trimmed, trim; intros H; apply andb_true_iff in H as [H1 H2].
  destruct m as [|c t]; [reflexivity|].
  simpl in H1 |- *; apply negb_true_iff in H1; rewrite H1.
  apply rtrim_last_ok; exact H2.
Qed.

Lemma trim_frame L m R :
  all_space L = true -> all_space R = true -> trimmed m = true ->
  trim (L ++ m ++ R) = m.
Proof.
  intros HL HR Hm; unfold trim.
  rewrite ltrim_all_space by exact HL.
  destruct (ltrim_app_space m R HR) as [R' [HR' ->]].
  rewrite rtrim_app_space by exact HR'.
  apply trim_trimmed; exact Hm.
Qed.

Lemma trim_decompose v :
  exists L m R, all_space L = true /\ all_space R = true /\ trimmed m = true /\
                v = L ++ m ++ R.
Proof.
  induction v as [|c v [L [m [R [HL [HR [Hm ->]]]]]]].
  - exists [], [], []; auto.
  - destruct (is_space c) eqn:Ec.
    + exists (c :: L), m, R; simpl; rewrite Ec, HL; auto.
    + destruct m as [|d m'].
      * exists [], [c], (L ++ R); repeat split.
        -- unfold all_space; rewrite forallb_app; fold (all_space L) (all_space R).
           rewrite HL, HR; reflexivity.
        -- unfold trimmed; simpl; rewrite Ec; reflexivity.
      * exists [], (c :: L ++ d :: m'), R; repeat split; [exact HR| |].
        -- unfold trimmed in Hm |- *; apply andb_true_iff in Hm as [_ Hm].
           change (starts_with is_space (c :: L ++ d :: m')) with (is_space c).
           rewrite Ec, last_ok_cons by (destruct L; simpl; congruence).
           rewrite last_ok_app by congruence.
           rewrite Hm; reflexivity.
        -- simpl; rewrite <- app_assoc; reflexivity.
Qed.

Lemma trim_idem v : trim (trim v) = trim v.
Proof.
  destruct (trim_decompose v) as [L [m [R [HL [HR [Hm ->]]]]]].
  rewrite (trim_frame L m R HL HR Hm). apply trim_trimmed; exact Hm.
Qed.

Lemma sbp_last_ok t : last_ok t = true -> last_ok (strip_before_punct t) = true.
Proof.
  induction t as [|c t IH]; intros H; [reflexivity|].
  destruct t as [|d t'].
  - simpl in H |- *; rewrite andb_false_r; exact H.
  - rewrite last_ok_cons in H by congruence.
    specialize (IH H).
    assert (Hne : strip_before_punct (d :: t') <> []) by
      (intros E; apply sbp_nil in E; discriminate).
    change (strip_before_punct (c :: d :: t')) with
      (let r := strip_before_punct (d :: t') in
       if is_space c && starts_with is_punct r then r else c :: r).
    cbv zeta.
    destruct (is_space c && starts_with is_punct (strip_before_punct (d :: t'))).
    + exact IH.
    + rewrite last_ok_cons by exact Hne; exact IH.
Qed.

Lemma sap_nonempty t : t <> [] -> space_after_punct t <> [].
Proof. destruct t as [|x t]; [congruence|]. destruct (sap_head x t) as [r ->]; congruence. Qed.

Lemma sap_last_ok t : last_ok t = true -> last_ok (space_after_punct t) = true.
Proof.
  induction t as [|x|x y r IH1 IH2] using list_pair_ind; intros H; [reflexivity|exact H|].
  rewrite last_ok_cons in H by congruence.
  change (space_after_punct (x :: y :: r)) with
    (if is_punct x && negb (is_space y) then x :: SPACE :: y :: space_after_punct r
     else x :: space_after_punct (y :: r)).
  destruct (is_punct x && negb (is_space y)) eqn:Em.
  - rewrite !last_ok_cons by congruence.
    destruct r as [|z r'].
    + simpl. apply andb_true_iff in Em as [_ Em]; exact Em.
    + rewrite last_ok_cons by (apply sap_nonempty; congruence).
      apply IH1. rewrite last_ok_cons in H by congruence; exact H.
  - rewrite last_ok_cons by (apply sap_nonempty; congruence). apply IH2; exact H.
Qed.

Lemma sbp_trimmed m : trimmed m = true -> trimmed (strip_before_punct m) = true.
Proof.
  unfold trimmed; intros H; apply andb_true_iff in H as [H1 H2].
  apply andb_true_iff; split; [|apply sbp_last_ok; exact H2].
  destruct m as [|c t]; [reflexivity|].
  simpl in H1; apply negb_true_iff in H1.
  rewrite sbp_cons_nonspace by exact H1; simpl; rewrite H1; reflexivity.
Qed.

Lemma sap_trimmed m : trimmed m = true -> trimmed (space_after_punct m) = true.
Proof.
  unfold trimmed; intros H; apply andb_true_iff in H as [H1 H2].
  apply andb_true_iff; split; [|apply sap_last_ok; exact H2].
  destruct m as [|c t]; [reflexivity|].
  destruct (sap_head c t) as [r ->]; exact H1.
Qed.

Lemma trim_sbp v : trim (strip_before_punct v) = strip_before_punct (trim v).
Proof.
  destruct (trim_decompose v) as [L [m [R [HL [HR [Hm ->]]]]]].
  rewrite (trim_frame L m R HL HR Hm).
  destruct (sbp_space_prefix L (m ++ R) HL) as [L' [HL' ->]].
  rewrite sbp_app_space by exact HR.
  apply trim_frame; [exact HL'|exact HR|apply sbp_trimmed; exact Hm].
Qed.

Lemma trim_sap v : trim (space_after_punct v) = space_after_punct (trim v).
Proof.
  destruct (trim_decompose v) as [L [m [R [HL [HR [Hm ->]]]]]].
  rewrite (trim_frame L m R HL HR Hm).
  rewrite sap_all_space, sap_app_space by assumption.
  apply trim_frame; [exact HL|exact HR|apply sap_trimmed; exact Hm].
Qed.

Lemma sap_eq2 x y r :
  space_after_punct (x :: y :: r) =
  if is_punct x && negb (is_space y) then x :: SPACE :: y :: space_after_punct r
  else x :: space_after_punct (y :: r).
Proof. reflexivity. Qed.

Lemma sbp_eq c t :
  strip_before_punct (c :: t) =
  if is_space c && starts_with is_punct (strip_before_punct t) then strip_before_punct t
  else c :: strip_before_punct t.
Proof. reflexivity. Qed.

Lemma sbp_npws w : no_space_before_punct (strip_before_punct w) = true.
Proof.
  induction w as [|c t IH]; [reflexivity|].
  rewrite sbp_eq.
  destruct (is_space c && starts_with is_punct (strip_before_punct t)) eqn:E; [exact IH|].
  simpl; rewrite E, IH; reflexivity.
Qed.

(** Re-running the last two rewriting passes on their own output gives
    the same text. *)
Lemma sap_sbp_sap z :
  no_space_before_punct z = true ->
  space_after_punct (strip_before_punct (space_after_punct z)) = space_after_punct z /\
  hd_error (strip_before_punct (space_after_punct z)) = hd_error z.
Proof.
  induction z as [|x|x y r IH1 IH2] using list_pair_ind; intros H.
  - split; reflexivity.
  - simpl; rewrite andb_false_r; split; reflexivity.
  - simpl in H. apply andb_true_iff in H as [Hxy H].
    pose proof H as Hyr; apply andb_true_iff in H as [_ Hr].
    specialize (IH1 Hr) as [IH1a IH1b]; specialize (IH2 Hyr) as [IH2a IH2b].
    rewrite sap_eq2.
    destruct (is_punct x && negb (is_space y)) eqn:Em.
    + apply andb_true_iff in Em as [Px Sy]; apply negb_true_iff in Sy.
      pose proof (punct_space x Px) as Sx.
      rewrite (sbp_eq x), (sbp_eq SPACE), sbp_cons_nonspace by exact Sy.
      rewrite space_space; simpl starts_with.
      destruct (is_punct y) eqn:Py; cbn [andb negb]; rewrite Sx; cbn [andb negb].
      * rewrite sap_eq2, Px, Sy; cbn [andb negb]. rewrite IH1a; split; reflexivity.
      * rewrite sap_eq2, Px, space_space; cbn [andb negb].
        rewrite (sap_cons_nonpunct SPACE) by reflexivity.
        rewrite sap_cons_nonpunct by exact Py. rewrite IH1a; split; reflexivity.
    + rewrite sbp_eq.
      destruct (strip_before_punct (space_after_punct (y :: r))) as [|y' S'] eqn:ES;
        [discriminate|].
      simpl in IH2b; injection IH2b as ->.
      destruct (is_space x) eqn:Sx; simpl in Hxy; cbn [andb negb starts_with].
      * destruct (is_punct y) eqn:Py; [discriminate|].
        cbn [andb negb].
        rewrite sap_eq2, Em, IH2a; split; reflexivity.
      * rewrite sap_eq2, Em, IH2a; split; reflexivity.
Qed.

(** ---- letter pairs: [camel] leaves none, the other passes add none ---- *)

Lemma camel_eq2 a b r :
  camel (a :: b :: r) =
  if is_lower a && is_upper b then a :: SPACE :: b :: camel r else a :: camel (b :: r).
Proof. reflexivity. Qed.

Lemma camel_head a t : exists r, camel (a :: t) = a :: r.
Proof.
  destruct t as [|b r]; [eexists; reflexivity|].
  rewrite camel_eq2; destruct (is_lower a && is_upper b); eexists; reflexivity.
Qed.

Lemma camel_lu_free s : lu_free (camel s) = true.
Proof.
  induction s as [|x|x y r IH1 IH2] using list_pair_ind; [reflexivity|reflexivity|].
  rewrite camel_eq2; destruct (is_lower x && is_upper y) eqn:E.
  - apply andb_true_iff in E as [_ Uy].
    cbn [lu_free lu_head].
    change (is_upper SPACE) with false; change (is_lower SPACE) with false.
    rewrite andb_false_r; cbn [negb andb]. rewrite IH1.
    destruct (camel r); cbn [lu_head]; rewrite ?(upper_not_lower y Uy); reflexivity.
  - destruct (camel_head y r) as [r' Er]; rewrite Er in IH2 |- *.
    simpl lu_free in IH2 |- *; rewrite IH2, E; reflexivity.
Qed.

Lemma camel_id s : lu_free s = true -> camel s = s.
Proof.
  induction s as [|x|x y r IH1 IH2] using list_pair_ind; intros H; [reflexivity|reflexivity|].
  simpl in H; apply andb_true_iff in H as [Hxy H].
  rewrite camel_eq2; apply negb_true_iff in Hxy; rewrite Hxy.
  rewrite IH2 by exact H; reflexivity.
Qed.

Lemma collapse_space_head t :
  starts_with is_space t = true -> exists r, collapse t = SPACE :: r.
Proof.
  induction t as [|c t IH]; simpl; [discriminate|intros Hc; rewrite Hc].
  destruct (starts_with is_space t); [apply IH; reflexivity|eexists; reflexivity].
Qed.

Lemma lu_head_collapse a t : lu_head a t = true -> lu_head a (collapse t) = true.
Proof.
  destruct t as [|d t]; [reflexivity|].
  destruct (is_space d) eqn:Sd.
  - destruct (collapse_space_head (d :: t)) as [r ->]; [exact Sd|].
    simpl; rewrite andb_false_r; reflexivity.
  - simpl; rewrite Sd; simpl; auto.
Qed.

Lemma collapse_lu_free s : lu_free s = true -> lu_free (collapse s) = true.
Proof.
  induction s as [|c t IH]; simpl; intros H; [reflexivity|].
  apply andb_true_iff in H as [Hc Ht].
  destruct (is_space c).
  - destruct (starts_with is_space t); [auto|].
    simpl; rewrite IH by exact Ht. destruct (collapse t); reflexivity.
  - cbn [lu_free]; rewrite IH, lu_head_collapse by assumption; reflexivity.
Qed.

Lemma lu_head_sbp a t : lu_head a t = true -> lu_head a (strip_before_punct t) = true.
Proof.
  destruct t as [|d t]; [reflexivity|].
  rewrite sbp_eq.
  destruct (is_space d && starts_with is_punct (strip_before_punct t)) eqn:E; [|auto].
  intros _; apply andb_true_iff in E as [_ E].
  destruct (strip_before_punct t) as [|p r]; [discriminate|].
  simpl in E |- *; rewrite (punct_not_upper p E), andb_false_r; reflexivity.
Qed.

Lemma sbp_lu_free s : lu_free s = true -> lu_free (strip_before_punct s) = true.
Proof.
  induction s as [|c t IH]; simpl; intros H; [reflexivity|].
  apply andb_true_iff in H as [Hc Ht].
  destruct (is_space c && starts_with is_punct (strip_before_punct t)); [auto|].
  cbn [lu_free]; rewrite IH, lu_head_sbp by assumption; reflexivity.
Qed.

Lemma lu_head_sap a t : lu_head a (space_after_punct t) = lu_head a t.
Proof. destruct t as [|x t]; [reflexivity|]. destruct (sap_head x t) as [r ->]; reflexivity. Qed.

Lemma sap_lu_free s : lu_free s = true -> lu_free (space_after_punct s) = true.
Proof.
  induction s as [|x|x y r IH1 IH2] using list_pair_ind; intros H; [reflexivity|exact H|].
  pose proof H as H0; simpl in H; apply andb_true_iff in H as [Hxy H].
  pose proof H as H1; simpl in H; apply andb_true_iff in H as [Hyr Hr].
  rewrite sap_eq2; destruct (is_punct x && negb (is_space y)) eqn:E.
  - apply andb_true_iff in E as [Px _].
    cbn [lu_free lu_head]. rewrite (punct_not_lower x Px).
    rewrite lu_head_sap, Hyr, IH1 by exact Hr; reflexivity.
  - cbn [lu_free]; rewrite lu_head_sap, IH2 by exact H1; exact (andb_true_intro (conj Hxy eq_refl)).
Qed.

Lemma ltrim_lu_free s : lu_free s = true -> lu_free (ltrim s) = true.
Proof.
  induction s as [|c t IH]; simpl; intros H; [reflexivity|].
  destruct (is_space c); [|exact H].
  apply andb_true_iff in H as [_ H]; auto.
Qed.

Lemma rtrim_head c t r : rtrim t = c :: r -> hd_error t = Some c.
Proof.
  revert r; induction t as [|d t IH]; intros r; simpl; [discriminate|].
  destruct (rtrim t); [destruct (is_space d); [discriminate|]|]; intros E; injection E; intros; subst; reflexivity.
Qed.

Lemma rtrim_lu_free s : lu_free s = true -> lu_free (rtrim s) = true.
Proof.
  induction s as [|c t IH]; simpl; intros H; [reflexivity|].
  apply andb_true_iff in H as [Hc Ht]; specialize (IH Ht).
  destruct (rtrim t) as [|d r] eqn:E.
  - destruct (is_space c); reflexivity.
  - apply rtrim_head in E. destruct t as [|d' t']; [discriminate|].
    simpl in E; injection E as ->.
    simpl; simpl in Hc; rewrite Hc; exact IH.
Qed.

(** ---- whitespace: single plain spaces after [collapse], kept so ---- *)

Lemma collapse_nonspace_head t :
  starts_with is_space t = false -> starts_with is_space (collapse t) = false.
Proof. destruct t as [|d t]; simpl; [reflexivity|]. intros Hd; rewrite Hd; exact Hd. Qed.

Lemma collapse_single_spaced s : single_spaced (collapse s) = true.
Proof.
  induction s as [|c t IH]; simpl; [reflexivity|].
  destruct (is_space c) eqn:Sc.
  - destruct (starts_with is_space t) eqn:St; [exact IH|].
    cbn [single_spaced]. rewrite space_space, collapse_nonspace_head, IH by exact St.
    reflexivity.
  - cbn [single_spaced]. rewrite Sc, IH; reflexivity.
Qed.

Lemma collapse_id s : single_spaced s = true -> collapse s = s.
Proof.
  induction s as [|c t IH]; simpl; intros H; [reflexivity|].
  apply andb_true_iff in H as [Hc Ht].
  destruct (is_space c).
  - apply andb_true_iff in Hc as [Hc Hst]; apply negb_true_iff in Hst.
    apply N.eqb_eq in Hc; subst c; rewrite Hst, IH by exact Ht; reflexivity.
  - rewrite IH by exact Ht; reflexivity.
Qed.

Lemma sbp_nonspace_head t :
  starts_with is_space t = false -> starts_with is_space (strip_before_punct t) = false.
Proof.
  destruct t as [|d t]; [reflexivity|]. intros Hd; simpl in Hd.
  rewrite sbp_cons_nonspace by exact Hd; exact Hd.
Qed.

Lemma sbp_single_spaced s :
  single_spaced s = true -> single_spaced (strip_before_punct s) = true.
Proof.
  induction s as [|c t IH]; intros H; [reflexivity|].
  simpl in H; apply andb_true_iff in H as [Hc Ht].
  rewrite sbp_eq.
  destruct (is_space c && starts_with is_punct (strip_before_punct t)); [auto|].
  cbn [single_spaced]; rewrite IH by exact Ht.
  destruct (is_space c); [|reflexivity].
  apply andb_true_iff in Hc as [Hc Hst]; apply negb_true_iff in Hst.
  rewrite Hc, sbp_nonspace_head by exact Hst; reflexivity.
Qed.

Lemma sap_single_spaced s :
  single_spaced s = true -> single_spaced (space_after_punct s) = true.
Proof.
  induction s as [|x|x y r IH1 IH2] using list_pair_ind; intros H; [reflexivity|exact H|].
  pose proof H as H0; simpl in H; apply andb_true_iff in H as [Hx H].
  pose proof H as H1; simpl in H; apply andb_true_iff in H as [Hy Hr].
  rewrite sap_eq2; destruct (is_punct x && negb (is_space y)) eqn:E.
  - apply andb_true_iff in E as [Px Sy]; apply negb_true_iff in Sy.
    cbn [single_spaced starts_with].
    rewrite (punct_space x Px), space_space, Sy, IH1 by exact Hr; reflexivity.
  - cbn [single_spaced]. rewrite IH2 by exact H1.
    destruct (sap_head y r) as [r' ->]. simpl starts_with; simpl starts_with in Hx.
    rewrite Hx; reflexivity.
Qed.

Lemma ltrim_single_spaced s : single_spaced s = true -> single_spaced (ltrim s) = true.
Proof.
  induction s as [|c t IH]; intros H; [reflexivity|].
  simpl ltrim; destruct (is_space c); [|exact H].
  simpl in H; apply andb_true_iff in H as [_ H]; auto.
Qed.

Lemma rtrim_single_spaced s : single_spaced s = true -> single_spaced (rtrim s) = true.
Proof.
  induction s as [|c t IH]; simpl; intros H; [reflexivity|].
  apply andb_true_iff in H as [Hc Ht]; specialize (IH Ht).
  destruct (rtrim t) as [|d r] eqn:E.
  - destruct (is_space c) eqn:Sc; [reflexivity|].
    simpl; rewrite Sc; reflexivity.
  - apply rtrim_head in E. destruct t as [|d' t']; [discriminate|].
    simpl in E; injection E as ->.
    change (single_spaced (c :: d :: r)) with
      ((if is_space c then (c =? SPACE)%N && negb (starts_with is_space (d :: r)) else true)
       && single_spaced (d :: r)).
    rewrite IH, andb_true_r. exact Hc.
Qed.

(** [C2] [preprocessText] is idempotent: normalising already normalised
    text changes nothing. *)
Theorem preprocessText_idempotent (x : jstr) :
  preprocessText (preprocessText x) = preprocessText x.
Proof.
  assert (Hlu : lu_free (preprocessText x) = true).
  { unfold preprocessText, trim.
    apply rtrim_lu_free, ltrim_lu_free, sap_lu_free, sbp_lu_free, collapse_lu_free.
    apply camel_lu_free. }
  assert (Hss : single_spaced (preprocessText x) = true).
  { unfold preprocessText, trim.
    apply rtrim_single_spaced, ltrim_single_spaced, sap_single_spaced,
      sbp_single_spaced, collapse_single_spaced. }
  unfold preprocessText at 1.
  rewrite (camel_id _ Hlu), (collapse_id _ Hss).
  unfold preprocessText.
  pose proof (sbp_npws (collapse (camel x))) as Hnp.
  rewrite <- trim_sbp, <- trim_sap, (proj1 (sap_sbp_sap _ Hnp)).
  apply trim_idem.
Qed.

End TextFacts.

(* ================================================================== *)
(** ** Facts about the chunker *)

Module ChunkFacts.
Import Text TextFacts.

Lemma join_nil g : Forall (fun s => s <> []) g -> join_sentences g = [] -> g = [].
Proof.
  intros Hg; destruct Hg as [|s g Hs Hg]; [reflexivity|].
  destruct g as [|s' g']; simpl; [congruence|].
  destruct s; [congruence|discriminate].
Qed.

Lemma join_cons2 s g : g <> [] -> join_sentences (s :: g) = s ++ [DOT; SPACE] ++ join_sentences g.
Proof. destruct g; [congruence|reflexivity]. Qed.

Lemma join_snoc g t :
  join_sentences (g ++ [t]) =
  join_sentences g ++ (if is_nil g then [] else [DOT; SPACE]) ++ t.
Proof.
  induction g as [|s g IH]; [reflexivity|].
  change ((s :: g) ++ [t]) with (s :: (g ++ [t])).
  rewrite join_cons2 by (destruct g; simpl; congruence).
  rewrite IH.
  destruct g as [|s' g']; [reflexivity|].
  rewrite (join_cons2 s (s' :: g')) by congruence.
  rewrite <- !app_assoc; reflexivity.
Qed.

Lemma join_is_nil g : Forall (fun s => s <> []) g -> is_nil (join_sentences g) = is_nil g.
Proof.
  intros H; destruct H as [|s g Hs Hg]; [reflexivity|].
  destruct g as [|s' g']; [destruct s; [congruence|reflexivity]|].
  rewrite join_cons2 by congruence. destruct s; [congruence|reflexivity].
Qed.

Lemma sentences_of_cons s rest :
  sentences_of (s :: rest) =
  if is_nil (trim s) then sentences_of rest else trim s :: sentences_of rest.
Proof. unfold sentences_of; simpl; destruct (is_nil (trim s)); reflexivity. Qed.

(** The greedy loop cuts the sentence list into consecutive non-empty
    groups and renders each group as one chunk; [g0] is the group held
    in [currentChunk]. *)
Lemma chunk_loop_groups size sents : forall g0,
  Forall (fun s => s <> []) g0 ->
  exists groups,
    chunk_loop size (join_sentences g0) sents = map render groups /\
    concat groups = g0 ++ sentences_of sents /\
    Forall (fun g => g <> []) groups.
Proof.
  induction sents as [|s rest IH]; intros g0 Hg0.
  - cbn [chunk_loop]; rewrite join_is_nil by exact Hg0.
    destruct g0 as [|s0 g0'].
    + exists []; repeat split; constructor.
    + exists [s0 :: g0']; split; [reflexivity|split].
      * simpl; rewrite !app_nil_r; reflexivity.
      * constructor; [congruence|constructor].
  - cbn [chunk_loop]; rewrite sentences_of_cons.
    destruct (is_nil (trim s)) eqn:Et; [apply IH; exact Hg0|].
    assert (Ht : trim s <> []) by (destruct (trim s); [discriminate|congruence]).
    destruct (length (join_sentences g0) + length (trim s) + 1 <=? size).
    + rewrite join_is_nil, <- join_snoc by exact Hg0.
      destruct (IH (g0 ++ [trim s])) as [groups [E1 [E2 E3]]].
      { apply Forall_app; split; [exact Hg0|constructor; [exact Ht|constructor]]. }
      exists groups; split; [exact E1|split; [|exact E3]].
      rewrite E2, <- app_assoc; reflexivity.
    + destruct (IH [trim s]) as [groups [E1 [E2 E3]]].
      { constructor; [exact Ht|constructor]. }
      change (join_sentences [trim s]) with (trim s) in E1.
      rewrite join_is_nil by exact Hg0; rewrite E1.
      destruct g0 as [|s0 g0'].
      * exists groups; split; [reflexivity|split; [exact E2|exact E3]].
      * exists ((s0 :: g0') :: groups); split; [reflexivity|split].
        -- change (concat ((s0 :: g0') :: groups)) with ((s0 :: g0') ++ concat groups).
           rewrite E2; reflexivity.
        -- constructor; [congruence|exact E3].
Qed.


Lemma split_delims_delim_free s : Forall (fun p => delim_free p = true) (split_delims s).
Proof.
  induction s as [|c t IH]; simpl.
  - constructor; [reflexivity|constructor].
  - destruct (is_delim c) eqn:Dc.
    + destruct (starts_with is_delim t); [exact IH|constructor; [reflexivity|exact IH]].
    + destruct (split_delims t) as [|p ps]; inversion IH; subst.
      * constructor; [simpl; rewrite Dc; reflexivity|constructor].
      * constructor; [simpl; rewrite Dc; assumption|assumption].
Qed.

Lemma ltrim_delim_free s : delim_free s = true -> delim_free (ltrim s) = true.
Proof.
  induction s as [|c t IH]; intros H; [reflexivity|].
  simpl ltrim; destruct (is_space c); [|exact H].
  simpl in H; apply andb_true_iff in H as [_ H]; auto.
Qed.

Lemma rtrim_delim_free s : delim_free s = true -> delim_free (rtrim s) = true.
Proof.
  induction s as [|c t IH]; intros H; [reflexivity|].
  simpl in H; apply andb_true_iff in H as [Hc Ht]; specialize (IH Ht).
  simpl rtrim; destruct (rtrim t) as [|d r].
  - destruct (is_space c); simpl; rewrite ?Hc; reflexivity.
  - simpl; rewrite Hc; exact IH.
Qed.

Lemma sentences_good pieces :
  Forall (fun p => delim_free p = true) pieces ->
  Forall good_sentence (sentences_of pieces).
Proof.
  induction 1 as [|p ps Hp Hps IH]; [constructor|].
  rewrite sentences_of_cons.
  destruct (is_nil (trim p)) eqn:E; [exact IH|].
  constructor; [|exact IH].
  repeat split.
  - destruct (trim p); [discriminate|congruence].
  - apply trim_idem.
  - unfold trim; apply rtrim_delim_free, ltrim_delim_free; exact Hp.
Qed.

Lemma split_delims_nonempty s : split_delims s <> [].
Proof.
  induction s as [|c t IH]; simpl; [congruence|].
  destruct (is_delim c); [destruct (starts_with is_delim t); congruence|].
  destruct (split_delims t); congruence.
Qed.

Lemma split_delims_prefix A X p ps :
  delim_free A = true -> split_delims X = p :: ps ->
  split_delims (A ++ X) = (A ++ p) :: ps.
Proof.
  intros HA HX; induction A as [|c A IH]; [exact HX|].
  simpl in HA; apply andb_true_iff in HA as [Hc HA]; apply negb_true_iff in Hc.
  simpl; rewrite Hc, IH by exact HA; reflexivity.
Qed.

Lemma trim_space_cons p : trim (SPACE :: p) = trim p.
Proof. reflexivity. Qed.

(** Re-splitting a rendered chunk on the delimiters gives its group back. *)
Lemma resplit_render g :
  g <> [] -> Forall good_sentence g -> sentences_of (split_delims (render g)) = g.
Proof.
  induction g as [|s g IH]; intros Hne Hg; [congruence|].
  inversion Hg as [|? ? [Hs [Hts Hds]] Hg']; subst.
  destruct g as [|s' g'].
  - unfold render; simpl join_sentences.
    rewrite (split_delims_prefix s [DOT] [] [[]]) by (exact Hds || reflexivity).
    rewrite app_nil_r, sentences_of_cons, Hts.
    destruct s; [congruence|reflexivity].
  - unfold render; rewrite join_cons2 by congruence.
    rewrite <- !app_assoc.
    destruct (split_delims (render (s' :: g'))) as [|p ps] eqn:Er;
      [exfalso; exact (split_delims_nonempty _ Er)|].
    assert (E : split_delims ([DOT; SPACE] ++ join_sentences (s' :: g') ++ [DOT]) =
                [] :: (SPACE :: p) :: ps).
    { change ([DOT; SPACE] ++ join_sentences (s' :: g') ++ [DOT]) with
        (DOT :: SPACE :: render (s' :: g')).
      change (split_delims (DOT :: SPACE :: render (s' :: g'))) with
        ([] :: match split_delims (render (s' :: g')) with
               | p :: ps => (SPACE :: p) :: ps
               | [] => [[SPACE]]
               end).
      rewrite Er; reflexivity. }
    rewrite (split_delims_prefix s _ [] _ Hds E), app_nil_r.
    rewrite sentences_of_cons, Hts.
    destruct s as [|a s0]; [congruence|]. cbn [is_nil].
    f_equal.
    rewrite sentences_of_cons, trim_space_cons, <- sentences_of_cons.
    apply IH; [congruence|exact Hg'].
Qed.

Lemma Forall_concat_inv {A} (P : A -> Prop) (gs : list (list A)) :
  Forall P (concat gs) -> Forall (Forall P) gs.
Proof.
  induction gs as [|g gs IH]; simpl; intros H; constructor.
  - apply Forall_app in H; tauto.
  - apply IH; apply Forall_app in H; tauto.
Qed.

Lemma chunks_as_groups (text : jstr) (size : nat) :
  exists groups,
    splitIntoChunks text size = map render groups /\
    Forall (fun g => g <> []) groups /\
    Forall (Forall good_sentence) groups /\
    concat groups = sentences_of (split_delims (preprocessText text)).
Proof.
  destruct (chunk_loop_groups size (split_delims (preprocessText text)) [] ltac:(constructor))
    as [groups [E1 [E2 E3]]].
  exists groups; split; [exact E1|split; [exact E3|split; [|exact E2]]].
  apply Forall_concat_inv; rewrite E2.
  apply sentences_good, split_delims_delim_free.
Qed.

Lemma resplit_all groups :
  Forall (fun g => g <> []) groups -> Forall (Forall good_sentence) groups ->
  concat (map (fun c => sentences_of (split_delims c)) (map render groups)) = concat groups.
Proof.
  induction 1 as [|g gs Hg Hgs IH]; intros Hgood; [reflexivity|].
  inversion Hgood; subst. simpl.
  rewrite resplit_render, IH by assumption; reflexivity.
Qed.

Lemma ltrim_head s : starts_with is_space (ltrim s) = false.
Proof.
  induction s as [|c t IH]; [reflexivity|].
  simpl; destruct (is_space c) eqn:E; [exact IH|exact E].
Qed.

Lemma trim_head s : starts_with is_space (trim s) = false.
Proof.
  unfold trim; destruct (rtrim (ltrim s)) as [|c r] eqn:E; [reflexivity|].
  apply rtrim_head in E. pose proof (ltrim_head s) as H.
  destruct (ltrim s); [discriminate|]. simpl in E; injection E as ->; exact H.
Qed.

Lemma render_shape g :
  g <> [] -> Forall good_sentence g ->
  render g <> [] /\ last (render g) = Some DOT /\ trim (render g) = render g.
Proof.
  intros Hne Hg; unfold render.
  split; [destruct (join_sentences g); discriminate|split; [apply last_snoc|]].
  apply trim_trimmed; unfold trimmed; apply andb_true_iff; split.
  - destruct g as [|s g']; [congruence|].
    inversion Hg as [|? ? [Hs [Hts _]] _]; subst.
    assert (Hh : starts_with is_space s = false) by (rewrite <- Hts; apply trim_head).
    destruct g' as [|s' g''].
    + simpl join_sentences. destruct s as [|a s0]; [congruence|]. simpl in Hh |- *.
      rewrite Hh; reflexivity.
    + rewrite join_cons2 by congruence.
      destruct s as [|a s0]; [congruence|]. simpl in Hh |- *; rewrite Hh; reflexivity.
  - rewrite last_ok_app by congruence; reflexivity.
Qed.

(** [C3] The chunks are the renderings of consecutive non-empty groups
    of the sentences of the normalised text (every sentence in exactly
    one chunk, in order); re-splitting the chunks on [.!?] and trimming
    gives back exactly the sentences of [preprocessText text]. *)
Theorem splitIntoChunks_reconstructs (text : jstr) (size : nat) :
  (exists groups,
     splitIntoChunks text size = map render groups /\
     Forall (fun g => g <> []) groups /\
     concat groups = sentences_of (split_delims (preprocessText text))) /\
  concat (map (fun c => sentences_of (split_delims c)) (splitIntoChunks text size)) =
    sentences_of (split_delims (preprocessText text)).
Proof.
  destruct (chunks_as_groups text size) as [groups [E1 [E2 [E3 E4]]]].
  split; [exists groups; auto|].
  rewrite E1, resplit_all by assumption; exact E4.
Qed.

(** [C10] Every chunk is non-empty, ends with ['.'] and has no leading
    or trailing whitespace. *)
Theorem splitIntoChunks_chunk_shape (text : jstr) (size : nat) (c : jstr) :
  In c (splitIntoChunks text size) ->
  c <> [] /\ last c = Some DOT /\ trim c = c.
Proof.
  destruct (chunks_as_groups text size) as [groups [E1 [E2 [E3 _]]]].
  rewrite E1; intros Hin; apply in_map_iff in Hin as [g [<- Hg]].
  apply render_shape.
  - rewrite List.Forall_forall in E2; apply E2; exact Hg.
  - rewrite List.Forall_forall in E3; apply E3; exact Hg.
Qed.

Lemma splitIntoChunks_chunk_shape_witness :
  In (of_ascii "Hello world.") (splitIntoChunks (of_ascii "Hello world. This is great!") 15) /\
  of_ascii "Hello world." <> [] /\ last (of_ascii "Hello world.") = Some DOT /\
  trim (of_ascii "Hello world.") = of_ascii "Hello world.".
Proof.
  split; [vm_compute; left; reflexivity|].
  apply (splitIntoChunks_chunk_shape (of_ascii "Hello world. This is great!") 15).
  vm_compute; left; reflexivity.
Defined.

(** The worked example of the chunker. *)
Example splitIntoChunks_example :
  splitIntoChunks (of_ascii "Hello world. This is great!") 15 =
  [of_ascii "Hello world."; of_ascii "This is great."].
Proof. vm_compute; reflexivity. Qed.

(** [C1] At [text = "ab. cd"] and [size = 5] both sentences ("ab", "cd")
    are shorter than [size], yet the only chunk is ["ab. cd."], of length
    7 > 5: the guard [currentChunk.length + trimmedSentence.length + 1 <=
    size] counts one character for the separator [". "] (two) and the
    final ['.'] (one more). *)
Theorem splitIntoChunks_overlong_chunk :
  splitIntoChunks (of_ascii "ab. cd") 5 = [of_ascii "ab. cd."] /\
  sentences_of (split_delims (preprocessText (of_ascii "ab. cd"))) =
    [of_ascii "ab"; of_ascii "cd"] /\
  length (of_ascii "ab. cd.") = 7.
Proof. vm_compute; repeat split. Qed.

End ChunkFacts.

(* ================================================================== *)
(** * Facts about the service layer *)

Module RagFacts.
Import Text Rag.

Local Open Scope string_scope.

Section Services.
Variable svc : Services.

Lemma tick_store w c : store (tick svc w c) = store w.
Proof. reflexivity. Qed.

Lemma tick_cfg w c : index_cfg (tick svc w c) = index_cfg w.
Proof. reflexivity. Qed.

Lemma tick_calls w c : calls (tick svc w c) = (calls w ++ [c])%list.
Proof. reflexivity. Qed.

(** [getEmbedding] issues exactly one request and leaves the store alone. *)
Lemma getEmbedding_world text w :
  snd (getEmbedding svc text w)
  = tick svc w (CallFetch embeddings_url (embedding_request text)).
Proof.
  unfold getEmbedding, try_catch, bind, fetch, throw, ret, lift, get_prop.
  destruct (fetch_svc svc w _ _) as [r|e]; [|reflexivity].
  destruct (negb (resp_ok r)); [reflexivity|].
  destruct (resp_json r) as [data|e]; [|reflexivity].
  destruct data; unfold ret; cbn; try reflexivity;
    match goal with |- context [if ?b then _ else _] => destruct b end; reflexivity.
Qed.

(** Arrays are truthy, so the check of [getEmbedding] is [Array.isArray]. *)
Lemma embedding_check_array v :
  negb (truthy v) || negb (is_array v) = negb (is_array v).
Proof. destruct v; cbn; rewrite ?orb_true_r; reflexivity. Qed.

Lemma clearIndex_run u w :
  clearIndex svc u w =
  match deleteAll_svc svc w u with
  | None => (Ok (mkOpResult true ("Documents cleared successfully for user " ++ u)),
             mkWorld (delete u (store w)) (index_cfg w) (now (tick svc w (CallDeleteAll u)))
                     (calls w ++ [CallDeleteAll u])%list)
  | Some e => (Err e, tick svc w (CallDeleteAll u))
  end.
Proof.
  unfold clearIndex, try_catch, bind, getIndex, ret, throw, deleteAll.
  destruct (deleteAll_svc svc w u); reflexivity.
Qed.

Lemma bind_run {A B} (m : M A) (k : A -> M B) w :
  bind m k w = match m w with
               | (Ok a, w') => k a w'
               | (Err e, w') => (Err e, w')
               end.
Proof. reflexivity. Qed.

(** ---- polling ---- *)

Lemma poll_once_run w :
  poll_once svc w = (Ok (ready_at svc w), tick svc w (CallDescribe INDEX_NAME)).
Proof.
  unfold poll_once, try_catch, bind, describeIndex, ret, ready_at.
  destruct (describe_svc svc w INDEX_NAME); reflexivity.
Qed.

Lemma wait_loop_S m n w :
  wait_loop svc m (S n) w =
  if ready_at svc w then (Ok true, tick svc w (CallDescribe INDEX_NAME))
  else wait_loop svc m n (next_attempt svc w).
Proof.
  cbn [wait_loop]. rewrite bind_run, poll_once_run.
  destruct (ready_at svc w); reflexivity.
Qed.

Lemma attempt_world_S j w :
  attempt_world svc (S j) w = next_attempt svc (attempt_world svc j w).
Proof. revert w; induction j as [|j IH]; intros w; [reflexivity|]. apply IH. Qed.

Lemma wait_loop_first m n : forall w j,
  j < n -> ready_at svc (attempt_world svc j w) = true ->
  (forall i, i < j -> ready_at svc (attempt_world svc i w) = false) ->
  wait_loop svc m n w = (Ok true, tick svc (attempt_world svc j w) (CallDescribe INDEX_NAME)).
Proof.
  induction n as [|n IH]; intros w j Hj Hr Hb; [lia|].
  rewrite wait_loop_S. destruct j as [|j].
  - cbn in Hr |- *. rewrite Hr. reflexivity.
  - rewrite (Hb 0 ltac:(lia) : ready_at svc w = false).
    apply (IH (next_attempt svc w) j); [lia|exact Hr|].
    intros i Hi. apply (Hb (S i)). lia.
Qed.

Lemma wait_loop_none m n : forall w,
  (forall i, i < n -> ready_at svc (attempt_world svc i w) = false) ->
  wait_loop svc m n w = (Err (not_ready_error m), attempt_world svc n w).
Proof.
  induction n as [|n IH]; intros w Hb; [reflexivity|].
  rewrite wait_loop_S, (Hb 0 ltac:(lia) : ready_at svc w = false).
  apply IH. intros i Hi. apply (Hb (S i)). lia.
Qed.

Lemma attempt_world_calls j : forall w,
  calls (attempt_world svc j w)
  = (calls w ++ concat (repeat [CallDescribe INDEX_NAME; CallSleep 2000] j))%list.
Proof.
  induction j as [|j IH]; intros w; cbn [attempt_world repeat concat].
  - rewrite app_nil_r. reflexivity.
  - rewrite IH. unfold next_attempt, sleep. cbn [snd calls].
    rewrite tick_calls, <- !app_assoc. reflexivity.
Qed.

(** ---- ingestion ---- *)

Lemma addDocument_run u text md w :
  addDocument svc u text md w =
  let chunks := splitIntoChunks text CHUNK_SIZE in
  match add_chunks svc u md (length chunks) 0 chunks w with
  | (Ok rs, w') =>
      (Ok (mkAddResult true ("Added document with " ++ pretty (length chunks) ++ " chunks") rs), w')
  | (Err e, w') => (Err e, w')
  end.
Proof.
  unfold addDocument, try_catch, getIndex, throw, bind, ret. cbv beta iota zeta.
  destruct (add_chunks _ _ _ _ _ _ _) as [[rs|e] w']; reflexivity.
Qed.

Lemma add_chunks_fail u md n cs : forall i w e w',
  add_chunks svc u md n i cs w = (Err e, w') ->
  exists k wk rs, k < length cs /\
    add_chunks svc u md n i (firstn k cs) w = (Ok rs, wk) /\
    add_chunk svc u md n (i + k) (nth k cs []) wk = (Err e, w').
Proof.
  induction cs as [|c cs IH]; intros i w e w' H; [discriminate|].
  cbn [add_chunks] in H. rewrite bind_run in H.
  destruct (add_chunk svc u md n i c w) as [[p|e0] w1] eqn:E1.
  - rewrite bind_run in H.
    destruct (add_chunks svc u md n (S i) cs w1) as [[rs|e1] w2] eqn:E2; [discriminate|].
    injection H as <- <-.
    destruct (IH (S i) w1 e1 w2 E2) as (k & wk & rs & Hk & Hok & Hfail).
    exists (S k), wk, (p :: rs). split; [cbn; lia|]. split.
    + cbn [firstn add_chunks]. rewrite bind_run, E1, bind_run, Hok. reflexivity.
    + cbn [nth length]. replace (i + S k) with (S i + k) by lia. exact Hfail.
  - injection H as <- <-.
    exists 0, w, []. split; [cbn; lia|]. split; [reflexivity|].
    rewrite Nat.add_0_r. exact E1.
Qed.

Lemma add_docs_app u ds1 d ds2 md w results w1 e w2 :
  add_docs svc u ds1 md w = (Ok results, w1) ->
  addDocument svc u d md w1 = (Err e, w2) ->
  add_docs svc u (ds1 ++ d :: ds2) md w = (Err e, w2).
Proof.
  revert w results. induction ds1 as [|d1 ds1 IH]; intros w results H1 H2.
  - injection H1 as <- <-. cbn [app add_docs]. rewrite bind_run, H2. reflexivity.
  - cbn [app add_docs] in H1 |- *. rewrite bind_run in H1 |- *.
    destruct (addDocument svc u d1 md w) as [[r|e0] w0]; [|discriminate].
    rewrite bind_run in H1 |- *.
    destruct (add_docs svc u ds1 md w0) as [[rs|e1] w3] eqn:E; [|discriminate].
    injection H1 as _ <-. rewrite (IH w0 rs E H2). reflexivity.
Qed.

Lemma stored_upsert (st : gmap string (gmap string StoredRecord)) u id r ns k :
  default ∅ (<[u := <[id := r]> (default ∅ (st !! u))]> st !! ns) !! k
  = if decide (ns = u /\ k = id) then Some r else default ∅ (st !! ns) !! k.
Proof.
  destruct (decide (ns = u)) as [->|Hns].
  - rewrite lookup_insert_eq. cbn.
    destruct (decide (k = id)) as [->|Hk].
    + rewrite lookup_insert_eq. rewrite decide_True by auto. reflexivity.
    + rewrite lookup_insert_ne by congruence. rewrite decide_False by tauto. reflexivity.
  - rewrite lookup_insert_ne by congruence. rewrite decide_False by tauto. reflexivity.
Qed.

(** What one iteration of the ingestion loop does to the store. *)
Lemma add_chunk_run u md n i c w :
  match add_chunk svc u md n i c w with
  | (Ok p, w') => exists r, p = (rec_id r, c) /\ rec_id r = chunk_id (rec_timestamp r) i /\
       rec_text r = c /\ rec_chunkIndex r = i /\ rec_userId r = u /\
       forall ns k, stored w' ns k
                    = if decide (ns = u /\ k = rec_id r) then Some r else stored w ns k
  | (Err _, w') => store w' = store w
  end.
Proof.
  unfold add_chunk. rewrite bind_run.
  pose proof (getEmbedding_world c w) as Hw.
  destruct (getEmbedding svc c w) as [[emb|e] w1]; cbn in Hw; subst w1; [|reflexivity].
  unfold date_now, upsert, bind, ret. cbv beta iota zeta.
  match goal with |- context [upsert_svc ?a ?b ?c ?d] => destruct (upsert_svc a b c d) end;
    [reflexivity|].
  match goal with |- context [<[_ := <[_ := ?r]> _]> _] => exists r end.
  split; [reflexivity|]. do 4 (split; [reflexivity|]).
  intros ns k. unfold stored. cbn [store]. apply stored_upsert.
Qed.

(** ---- record identifiers ---- *)

Lemma pretty_N_char_not_underscore x : Ascii.eqb (pretty_N_char x) "_"%char = false.
Proof.
  unfold pretty_N_char. destruct x as [|p]; [reflexivity|].
  repeat (destruct p as [p|p|]; try reflexivity).
Qed.

Lemma pretty_N_go_no_underscore x : forall s,
  no_underscore s = true -> no_underscore (pretty_N_go x s) = true.
Proof.
  induction (N.lt_wf_0 x) as [x _ IH]; intros s Hs.
  destruct (decide (x = 0%N)) as [->|Hx]; [rewrite pretty_N_go_0; exact Hs|].
  rewrite pretty_N_go_step by lia. apply IH; [apply N.div_lt; lia|].
  cbn. rewrite pretty_N_char_not_underscore. exact Hs.
Qed.

Lemma pretty_N_no_underscore (x : N) : no_underscore (pretty x) = true.
Proof.
  unfold pretty, pretty_N. destruct (decide (x = 0%N)); [reflexivity|].
  apply pretty_N_go_no_underscore. reflexivity.
Qed.

Lemma underscore_cancel a : forall b x y,
  no_underscore a = true -> no_underscore b = true ->
  (a ++ String "_" x = b ++ String "_" y)%string -> a = b /\ x = y.
Proof.
  induction a as [|ca a IH]; intros [|cb b] x y Ha Hb H; cbn in H.
  - injection H as ->. auto.
  - injection H as <- _. cbn in Hb. discriminate.
  - injection H as -> _. cbn in Ha. discriminate.
  - injection H as -> H. cbn in Ha, Hb. apply andb_prop in Ha as [_ Ha].
    apply andb_prop in Hb as [_ Hb]. destruct (IH b x y Ha Hb H) as [-> ->]. auto.
Qed.

Lemma chunk_id_inj t t' i j : chunk_id t i = chunk_id t' j -> t = t' /\ i = j.
Proof.
  unfold chunk_id. cbn. intros H. injection H as H.
  apply underscore_cancel in H as [Ht Hi]; [|apply pretty_N_no_underscore..].
  injection Hi as Hi. split; apply (inj pretty); assumption.
Qed.

Lemma add_chunks_keeps u md n cs : forall i w w' res,
  add_chunks svc u md n i cs w = (res, w') ->
  forall t j, j < i -> stored w' u (chunk_id t j) = stored w u (chunk_id t j).
Proof.
  induction cs as [|c cs IH]; intros i w w' res H t j Hj.
  - injection H as _ <-. reflexivity.
  - cbn [add_chunks] in H. rewrite bind_run in H.
    pose proof (add_chunk_run u md n i c w) as Hc.
    destruct (add_chunk svc u md n i c w) as [[p|e] w1].
    + destruct Hc as (r & _ & Hid & _ & _ & _ & Hst).
      rewrite bind_run in H.
      destruct (add_chunks svc u md n (S i) cs w1) as [res' w2] eqn:E.
      assert (w' = w2) as ->.
      { destruct res'; injection H as _ <-; reflexivity. }
      rewrite (IH (S i) w1 w2 res' E t j) by lia.
      rewrite Hst. rewrite decide_False; [reflexivity|].
      intros [_ Hk]. rewrite Hid in Hk. apply chunk_id_inj in Hk. lia.
    + injection H as _ <-. unfold stored. rewrite Hc. reflexivity.
Qed.

Lemma add_chunks_records u md n cs : forall i w rs w',
  add_chunks svc u md n i cs w = (Ok rs, w') ->
  forall j, j < length cs -> exists r, stored w' u (rec_id r) = Some r /\
    rec_text r = nth j cs [] /\ rec_chunkIndex r = i + j /\ rec_userId r = u.
Proof.
  induction cs as [|c cs IH]; intros i w rs w' H j Hj; [cbn in Hj; lia|].
  cbn [add_chunks] in H. rewrite bind_run in H.
  pose proof (add_chunk_run u md n i c w) as Hc.
  destruct (add_chunk svc u md n i c w) as [[p|e] w1]; [|discriminate].
  destruct Hc as (r & _ & Hid & Htext & Hidx & Hu & Hst).
  rewrite bind_run in H.
  destruct (add_chunks svc u md n (S i) cs w1) as [[rs'|e] w2] eqn:E; [|discriminate].
  injection H as _ <-.
  destruct j as [|j].
  - exists r. split; [|cbn; repeat split; auto; lia].
    rewrite Hid. rewrite (add_chunks_keeps u md n cs (S i) w1 w2 (Ok rs') E) by lia.
    rewrite Hst, <- Hid, decide_True by auto. reflexivity.
  - destruct (IH (S i) w1 rs' w2 E j) as (r' & ? & ? & ? & ?); [cbn in Hj; lia|].
    exists r'. cbn. repeat split; auto. lia.
Qed.

End Services.

(** [C8] [deleteUserIndex u] does what [clearIndex u] does: the same
    world afterwards (so exactly one [deleteAll] call, on namespace [u],
    and no other namespace or the index configuration touched), success
    together, with only the message differing, or the same error. *)
Theorem deleteUserIndex_is_clearIndex (svc : Services) (u : string) (w : World) :
  snd (deleteUserIndex svc u w) = snd (clearIndex svc u w) /\
  (match fst (clearIndex svc u w) with
   | Ok r => success r = true /\
             fst (deleteUserIndex svc u w)
             = Ok (mkOpResult true ("Deleted all documents for user " ++ u))
   | Err e => fst (deleteUserIndex svc u w) = Err e
   end) /\
  calls (snd (clearIndex svc u w)) = (calls w ++ [CallDeleteAll u])%list /\
  index_cfg (snd (clearIndex svc u w)) = index_cfg w /\
  (forall ns, ns <> u -> store (snd (clearIndex svc u w)) !! ns = store w !! ns) /\
  (store (snd (clearIndex svc u w)) = delete u (store w) \/
   store (snd (clearIndex svc u w)) = store w).
Proof.
  assert (Hd : deleteUserIndex svc u w =
               match clearIndex svc u w with
               | (Ok _, w') => (Ok (mkOpResult true ("Deleted all documents for user " ++ u)), w')
               | (Err e, w') => (Err e, w')
               end).
  { unfold deleteUserIndex, try_catch, bind, ret, throw.
    destruct (clearIndex svc u w) as [[r|e] w']; reflexivity. }
  rewrite Hd, clearIndex_run.
  destruct (deleteAll_svc svc w u) as [e|]; cbn.
  - repeat split; auto.
  - repeat split; auto.
    intros ns Hns. apply lookup_delete_ne. congruence.
Qed.

(** [C5] When [describeIndex] succeeds, [createUserIndex] answers at once
    with success after that single call (no [createIndex], no polling);
    two calls in a row on an index that exists both succeed, and the
    only calls issued are the two [describeIndex] calls. *)
Theorem createUserIndex_existing_index (svc : Services) (w : World) (u1 u2 : string)
    (d1 d2 : Description)
    (H1 : describe_svc svc w INDEX_NAME = Ok d1)
    (H2 : describe_svc svc (tick svc w (CallDescribe INDEX_NAME)) INDEX_NAME = Ok d2) :
  let w1 := tick svc w (CallDescribe INDEX_NAME) in
  let w2 := tick svc w1 (CallDescribe INDEX_NAME) in
  createUserIndex svc u1 w = (Ok (mkOpResult true ("Index ready for user " ++ u1)), w1) /\
  createUserIndex svc u2 w1 = (Ok (mkOpResult true ("Index ready for user " ++ u2)), w2) /\
  calls w2 = (calls w ++ [CallDescribe INDEX_NAME; CallDescribe INDEX_NAME])%list /\
  store w2 = store w /\ index_cfg w2 = index_cfg w.
Proof.
  intros w1 w2.
  assert (Hrun : forall u w0 d, describe_svc svc w0 INDEX_NAME = Ok d ->
            createUserIndex svc u w0
            = (Ok (mkOpResult true ("Index ready for user " ++ u)),
               tick svc w0 (CallDescribe INDEX_NAME))).
  { intros u w0 d Hd. unfold createUserIndex, try_catch, bind, describeIndex, ret.
    rewrite Hd. reflexivity. }
  split; [exact (Hrun u1 w d1 H1)|].
  split; [exact (Hrun u2 w1 d2 H2)|].
  subst w1 w2. rewrite !tick_calls, <- app_assoc. repeat split.
Qed.

(** The deployment whose index always exists. *)
Lemma createUserIndex_existing_index_witness :
  describe_svc instant_services world0 INDEX_NAME = Ok (mkDescription (JBool true)) /\
  createUserIndex instant_services "alice" world0
  = (Ok (mkOpResult true "Index ready for user alice"),
     tick instant_services world0 (CallDescribe INDEX_NAME)).
Proof.
  split; [reflexivity|].
  apply (createUserIndex_existing_index instant_services world0 "alice" "bob"
           (mkDescription (JBool true)) (mkDescription (JBool true)));
    reflexivity.
Defined.

(** [C7], counterexample: a 200 answer whose [embedding] field is an
    array of strings is returned as the embedding; only [Array.isArray]
    is checked, not that the elements are numbers. *)
Theorem getEmbedding_accepts_non_numeric :
  fst (getEmbedding string_array_services (of_ascii "hello") world0)
  = Ok (JArr [JStr (of_ascii "a")]).
Proof. vm_compute. reflexivity. Qed.

(** [C7], amended: [getEmbedding] issues exactly one request (no
    retry); a failed request's error is rethrown; a non-2xx status
    fails with the HTTP error naming the status; for a 2xx object body,
    an array in the [embedding] field is returned as it is and any other
    value of the field fails with the invalid-format error; an unreadable
    body rethrows the parse error and a [null] body fails with a
    [TypeError]. *)
Theorem getEmbedding_contract (svc : Services) (text : jstr) (w : World) :
  let req := embedding_request text in
  snd (getEmbedding svc text w) = tick svc w (CallFetch embeddings_url req) /\
  (forall e, fetch_svc svc w embeddings_url req = Err e ->
     fst (getEmbedding svc text w) = Err e) /\
  (forall r, fetch_svc svc w embeddings_url req = Ok r -> resp_ok r = false ->
     fst (getEmbedding svc text w) = Err (http_error (resp_status r))) /\
  (forall r fields, fetch_svc svc w embeddings_url req = Ok r -> resp_ok r = true ->
     resp_json r = Ok (JObj fields) ->
     fst (getEmbedding svc text w)
     = if is_array (lookup_field fields "embedding")
       then Ok (lookup_field fields "embedding") else Err invalid_embedding) /\
  (forall r e, fetch_svc svc w embeddings_url req = Ok r -> resp_ok r = true ->
     resp_json r = Err e -> fst (getEmbedding svc text w) = Err e) /\
  (forall r, fetch_svc svc w embeddings_url req = Ok r -> resp_ok r = true ->
     resp_json r = Ok JNull -> fst (getEmbedding svc text w) = Err TypeError).
Proof.
  intros req. split; [apply getEmbedding_world|].
  unfold getEmbedding, try_catch, bind, fetch, throw, ret, lift, get_prop; fold req.
  repeat split.
  - intros e ->. reflexivity.
  - intros r -> ->. reflexivity.
  - intros r fields -> -> ->. cbn.
    rewrite embedding_check_array.
    destruct (is_array (lookup_field fields "embedding")); reflexivity.
  - intros r e -> -> ->. reflexivity.
  - intros r -> -> ->. reflexivity.
Qed.

(** [C4]: in the concrete deployment, ingesting two one-chunk documents
    for the same user in the same millisecond gives both chunks the id
    [doc_1700000000000_chunk_0]; the second upsert replaces the first
    record, so namespace [u] ends with one record, the second document's. *)
Theorem addDocument_id_collision :
  let '(r1, w1) := addDocument instant_services "u" first_doc [] world0 in
  let '(r2, w2) := addDocument instant_services "u" second_doc [] w1 in
  r1 = Ok (mkAddResult true "Added document with 1 chunks"
             [("doc_1700000000000_chunk_0", first_doc)]) /\
  r2 = Ok (mkAddResult true "Added document with 1 chunks"
             [("doc_1700000000000_chunk_0", second_doc)]) /\
  option_map (fun m => map_size m) (store w2 !! "u") = Some 1%nat /\
  option_map rec_text (stored w2 "u" "doc_1700000000000_chunk_0") = Some second_doc.
Proof. vm_compute. repeat split. Qed.

(** [C6] [waitForIndex m] makes at most [m] attempts; attempt [j] starts
    in [attempt_world j w], each failed attempt being one [describeIndex]
    call followed by a 2000 ms pause.  If attempt [j] is the first to see
    the index ready, [waitForIndex] returns [true] right after its
    [describeIndex] call; if none of the [m] attempts sees it ready, it
    fails with the error naming the index and [m].  [createUserIndex]
    uses [m = 10] after creating the index. *)
Theorem waitForIndex_polling (svc : Services) (m : nat) (w : World) :
  (forall j, j < m -> ready_at svc (attempt_world svc j w) = true ->
     (forall i, i < j -> ready_at svc (attempt_world svc i w) = false) ->
     waitForIndex svc m w
     = (Ok true, tick svc (attempt_world svc j w) (CallDescribe INDEX_NAME))) /\
  ((forall i, i < m -> ready_at svc (attempt_world svc i w) = false) ->
     waitForIndex svc m w = (Err (not_ready_error m), attempt_world svc m w)) /\
  (forall j, calls (attempt_world svc j w)
             = (calls w ++ concat (repeat [CallDescribe INDEX_NAME; CallSleep 2000] j))%list) /\
  (forall j, attempt_world svc (S j) w = next_attempt svc (attempt_world svc j w)) /\
  not_ready_error m
  = Error ("Index rag-docs-llama not ready after " ++ pretty m ++ " attempts") /\
  (forall u e, describe_svc svc w INDEX_NAME = Err e ->
     create_svc svc (tick svc w (CallDescribe INDEX_NAME)) = None ->
     let w1 := snd (createIndex svc INDEX_NAME 4096 "cosine"
                      (tick svc w (CallDescribe INDEX_NAME))) in
     createUserIndex svc u w
     = match waitForIndex svc 10 w1 with
       | (Ok _, w2) => (Ok (mkOpResult true ("Created index and ready for user " ++ u)), w2)
       | (Err e', w2) => (Err e', w2)
       end).
Proof.
  split; [intros j Hj Hr Hb; apply (wait_loop_first svc m m w j Hj Hr Hb)|].
  split; [intros Hb; apply (wait_loop_none svc m m w Hb)|].
  split; [intros j; apply attempt_world_calls|].
  split; [intros j; apply attempt_world_S|].
  split; [reflexivity|].
  intros u e He Hc w1.
  unfold createUserIndex, try_catch, bind, ret, throw, describeIndex, createIndex in *.
  subst w1. rewrite He, Hc. cbv beta iota zeta delta [snd].
  match goal with |- context [waitForIndex svc 10 ?x] =>
    destruct (waitForIndex svc 10 x) as [[b|e'] w2] end; reflexivity.
Qed.

(** [C9] When [addDocument] fails, some chunk [k] failed: the chunks
    before it were ingested, chunk [k]'s iteration returned the error
    that [addDocument] returns, that failing iteration wrote nothing, and
    the records of chunks [0 .. k-1] are still stored in the user's
    namespace (no rollback).  In a batch, once a document fails,
    [addDocuments] returns its error in the world it left, whatever
    documents follow: none of them is ingested. *)
Theorem addDocument_failure_no_rollback (svc : Services) :
  (forall u text md w e w',
     addDocument svc u text md w = (Err e, w') ->
     let chunks := splitIntoChunks text CHUNK_SIZE in
     exists k wk results,
       k < length chunks /\
       add_chunks svc u md (length chunks) 0 (firstn k chunks) w = (Ok results, wk) /\
       add_chunk svc u md (length chunks) k (nth k chunks []) wk = (Err e, w') /\
       store w' = store wk /\
       (forall i, i < k -> exists r, stored w' u (rec_id r) = Some r /\
          rec_text r = nth i chunks [] /\ rec_chunkIndex r = i /\ rec_userId r = u)) /\
  (forall u ds1 d ds2 md w results w1 e w2,
     add_docs svc u ds1 md w = (Ok results, w1) ->
     addDocument svc u d md w1 = (Err e, w2) ->
     addDocuments svc u (ds1 ++ d :: ds2) md w = (Err e, w2)).
Proof.
  split.
  - intros u text md w e w' H chunks.
    rewrite addDocument_run in H. cbv zeta in H. fold chunks in H.
    destruct (add_chunks svc u md (length chunks) 0 chunks w) as [[rs|e0] w0] eqn:E;
      cbv iota in H; [discriminate|].
    injection H as <- <-.
    destruct (add_chunks_fail svc u md (length chunks) chunks 0 w e0 w0 E)
      as (k & wk & rs & Hk & Hok & Hfail).
    rewrite Nat.add_0_l in Hfail.
    exists k, wk, rs. split; [exact Hk|]. split; [exact Hok|]. split; [exact Hfail|].
    pose proof (add_chunk_run svc u md (length chunks) k (nth k chunks []) wk) as Hst.
    rewrite Hfail in Hst. split; [exact Hst|].
    intros i Hi.
    destruct (add_chunks_records svc u md (length chunks) (firstn k chunks) 0 w rs wk Hok i)
      as (r & Hr & Ht & Hx & Hu).
    { rewrite firstn_length_le by lia. exact Hi. }
    exists r. split; [unfold stored in *; rewrite Hst; exact Hr|].
    rewrite List.nth_firstn, (proj2 (Nat.ltb_lt i k) Hi) in Ht. auto.
  - intros u ds1 d ds2 md w results w1 e w2 H1 H2.
    unfold addDocuments, try_catch, throw.
    rewrite (add_docs_app svc u ds1 d ds2 md w results w1 e w2 H1 H2). reflexivity.
Qed.

End RagFacts.

(* ================================================================== *)
(** * Further facts about the normaliser and the chunker *)

Module TextMore.
Import Text TextFacts ChunkFacts.

Lemma rtrim_last_ok_any s : last_ok (rtrim s) = true.
Proof.
  induction s as [|c t IH]; [reflexivity|].
  cbn [rtrim]. destruct (rtrim t) as [|d r] eqn:E.
  - destruct (is_space c) eqn:Ec; [reflexivity|]. cbn. rewrite Ec. reflexivity.
  - rewrite last_ok_cons by discriminate. exact IH.
Qed.

Lemma trim_trimmed_any s : trimmed (trim s) = true.
Proof.
  unfold trimmed. rewrite trim_head. apply rtrim_last_ok_any.
Qed.

(** The greedy loop, with the bound its guard gives and the reason of
    every cut. *)
Lemma chunk_loop_spec size sents : forall g0,
  Forall (fun s => s <> []) g0 ->
  (length g0 <= 1 \/ length (join_sentences g0) <= size + 1) ->
  exists groups,
    chunk_loop size (join_sentences g0) sents = map render groups /\
    concat groups = g0 ++ sentences_of sents /\
    Forall (fun g => g <> []) groups /\
    Forall (fun g => length g <= 1 \/ length (join_sentences g) <= size + 1) groups /\
    (forall i g g', nth_error groups i = Some g -> nth_error groups (S i) = Some g' ->
       size < length (join_sentences g) + length (hd [] g') + 1) /\
    (g0 <> [] -> exists x rest, groups = (g0 ++ x) :: rest).
Proof.
  induction sents as [|s rest IH]; intros g0 Hg0 Hb.
  - cbn [chunk_loop]; rewrite join_is_nil by exact Hg0.
    destruct g0 as [|s0 g0'].
    + exists []. split; [reflexivity|]. split; [reflexivity|].
      split; [constructor|]. split; [constructor|].
      split; [intros [|i] ? ? H; discriminate|]. intros H; congruence.
    + exists [s0 :: g0']. split; [reflexivity|]. split; [cbn; rewrite !app_nil_r; reflexivity|].
      split; [constructor; [congruence|constructor]|].
      split; [constructor; [exact Hb|constructor]|].
      split; [intros [|i] g g' H1 H2; cbn in H2; discriminate|].
      intros _. exists [], []. rewrite app_nil_r. reflexivity.
  - cbn [chunk_loop]; rewrite sentences_of_cons.
    destruct (is_nil (trim s)) eqn:Et; [apply IH; assumption|].
    assert (Ht : trim s <> []) by (destruct (trim s); [discriminate|congruence]).
    destruct (length (join_sentences g0) + length (trim s) + 1 <=? size) eqn:Eg.
    + apply Nat.leb_le in Eg.
      rewrite join_is_nil, <- join_snoc by exact Hg0.
      destruct (IH (g0 ++ [trim s])) as (groups & E1 & E2 & E3 & E4 & E5 & E6).
      { apply Forall_app; split; [exact Hg0|constructor; [exact Ht|constructor]]. }
      { destruct g0 as [|s0 g0']; [left; reflexivity|right].
        rewrite join_snoc. cbn [is_nil]. rewrite !length_app. cbn [length]. lia. }
      exists groups. split; [exact E1|]. split; [rewrite E2, <- app_assoc; reflexivity|].
      split; [exact E3|]. split; [exact E4|]. split; [exact E5|].
      intros Hne. destruct E6 as (x & rest' & ->); [destruct g0; cbn; congruence|].
      exists ([trim s] ++ x), rest'. rewrite app_assoc. reflexivity.
    + apply Nat.leb_gt in Eg.
      destruct (IH [trim s]) as (groups & E1 & E2 & E3 & E4 & E5 & E6).
      { constructor; [exact Ht|constructor]. }
      { left. reflexivity. }
      change (join_sentences [trim s]) with (trim s) in E1.
      rewrite join_is_nil by exact Hg0; rewrite E1.
      destruct g0 as [|s0 g0'].
      * exists groups. split; [reflexivity|]. split; [exact E2|].
        split; [exact E3|]. split; [exact E4|]. split; [exact E5|].
        intros H; congruence.
      * exists ((s0 :: g0') :: groups). split; [reflexivity|]. split.
        { change (concat ((s0 :: g0') :: groups)) with ((s0 :: g0') ++ concat groups).
          rewrite E2; reflexivity. }
        split; [constructor; [congruence|exact E3]|].
        split; [constructor; [exact Hb|exact E4]|].
        split.
        { intros [|i] g g' H1 H2; cbn in H1, H2.
          - injection H1 as <-.
            destruct E6 as (x & rest' & ->); [congruence|].
            injection H2 as H2. rewrite <- H2. cbn [hd app]. exact Eg.
          - exact (E5 i g g' H1 H2). }
        intros _. exists [], groups. rewrite app_nil_r. reflexivity.
Qed.

Lemma splitIntoChunks_spec (text : jstr) (size : nat) :
  exists groups,
    splitIntoChunks text size = map render groups /\
    concat groups = sentences_of (split_delims (preprocessText text)) /\
    Forall (fun g => g <> []) groups /\
    Forall (fun g => length g <= 1 \/ length (join_sentences g) <= size + 1) groups /\
    (forall i g g', nth_error groups i = Some g -> nth_error groups (S i) = Some g' ->
       size < length (join_sentences g) + length (hd [] g') + 1).
Proof.
  destruct (chunk_loop_spec size (split_delims (preprocessText text)) []
              ltac:(constructor) ltac:(left; cbn; lia))
    as (groups & E1 & E2 & E3 & E4 & E5 & _).
  exists groups. unfold splitIntoChunks. auto.
Qed.

Lemma length_concat_nonempty {A} (gs : list (list A)) :
  Forall (fun g => g <> []) gs -> length gs <= length (concat gs).
Proof.
  induction 1 as [|g gs Hg _ IH]; [reflexivity|].
  cbn. rewrite length_app. destruct g; [congruence|]. cbn. lia.
Qed.

(** The result of [preprocessText] has no leading or trailing
    whitespace, every whitespace character in it is a plain space with
    no whitespace after it, and no lower-case letter in it is directly
    followed by an upper-case one. *)
Theorem preprocessText_output_shape (x : jstr) :
  trimmed (preprocessText x) = true /\
  single_spaced (preprocessText x) = true /\
  lu_free (preprocessText x) = true.
Proof.
  split; [apply trim_trimmed_any|]. split.
  - unfold preprocessText, trim.
    apply rtrim_single_spaced, ltrim_single_spaced, sap_single_spaced,
      sbp_single_spaced, collapse_single_spaced.
  - unfold preprocessText, trim.
    apply rtrim_lu_free, ltrim_lu_free, sap_lu_free, sbp_lu_free, collapse_lu_free.
    apply camel_lu_free.
Qed.

(** [splitIntoChunks] returns at most one chunk per sentence of the
    normalised text, and no chunk at all exactly when that text has no
    sentence (empty, blank or only delimiters). *)
Theorem splitIntoChunks_count (text : jstr) (size : nat) :
  length (splitIntoChunks text size)
    <= length (sentences_of (split_delims (preprocessText text))) /\
  (splitIntoChunks text size = [] <-> sentences_of (split_delims (preprocessText text)) = []).
Proof.
  destruct (splitIntoChunks_spec text size) as (groups & E1 & E2 & E3 & _).
  rewrite E1, <- E2, length_map. split; [apply length_concat_nonempty; exact E3|].
  split.
  - intros H. destruct groups; [reflexivity|discriminate].
  - intros H. destruct groups as [|g gs]; [reflexivity|].
    inversion E3 as [|? ? Hg _]; subst. destruct g; [congruence|discriminate].
Qed.

(** The bound the chunker keeps: a chunk longer than [maxSize + 2]
    characters is one sentence of the normalised text followed by
    ['.']. *)
Theorem splitIntoChunks_length_bound (text : jstr) (size : nat) (c : jstr) :
  In c (splitIntoChunks text size) ->
  length c <= size + 2 \/
  exists s, In s (sentences_of (split_delims (preprocessText text))) /\ c = s ++ [DOT].
Proof.
  destruct (splitIntoChunks_spec text size) as (groups & E1 & E2 & E3 & E4 & _).
  rewrite E1. intros Hin. apply in_map_iff in Hin as [g [<- Hg]].
  rewrite List.Forall_forall in E3, E4.
  destruct (E4 g Hg) as [H1|H1].
  - destruct g as [|s [|s' g']]; [exfalso; exact (E3 [] Hg eq_refl)| |cbn in H1; lia].
    right. exists s. split; [|reflexivity].
    rewrite <- E2. apply in_concat. exists [s]. split; [exact Hg|left; reflexivity].
  - left. unfold render. rewrite length_app. cbn. lia.
Qed.

(** The witness: a chunk of one sentence. *)
Lemma splitIntoChunks_length_bound_witness :
  In (of_ascii "ab.") (splitIntoChunks (of_ascii "ab. cd") 1) /\
  (length (of_ascii "ab.") <= 1 + 2 \/
   exists s, In s (sentences_of (split_delims (preprocessText (of_ascii "ab. cd")))) /\
             of_ascii "ab." = s ++ [DOT]).
Proof.
  split; [vm_compute; left; reflexivity|].
  apply (splitIntoChunks_length_bound (of_ascii "ab. cd") 1).
  vm_compute; left; reflexivity.
Defined.

(** The chunker is greedy: the chunks are the renderings of consecutive
    groups of the sentences, and a chunk ends only where adding the next
    sentence would break the guard
    [currentChunk.length + trimmedSentence.length + 1 <= size]. *)
Theorem splitIntoChunks_greedy (text : jstr) (size : nat) :
  exists groups,
    splitIntoChunks text size = map render groups /\
    concat groups = sentences_of (split_delims (preprocessText text)) /\
    (forall i g g', nth_error groups i = Some g -> nth_error groups (S i) = Some g' ->
       size < length (join_sentences g) + length (hd [] g') + 1).
Proof.
  destruct (splitIntoChunks_spec text size) as (groups & E1 & E2 & _ & _ & E5).
  exists groups. auto.
Qed.

End TextMore.

(* ================================================================== *)
(** * Further facts about ingestion, index setup and retrieval *)

Module ServiceMore.
Import Text TextFacts ChunkFacts Rag RagFacts Retrieval.

Local Open Scope string_scope.

(** Normalising twice is normalising once. *)
Lemma preprocess_twice (x : jstr) : preprocessText (preprocessText x) = preprocessText x.
Proof.
  assert (Hlu : lu_free (preprocessText x) = true).
  { unfold preprocessText, trim.
    apply rtrim_lu_free, ltrim_lu_free, sap_lu_free, sbp_lu_free, collapse_lu_free.
    apply camel_lu_free. }
  assert (Hss : single_spaced (preprocessText x) = true).
  { unfold preprocessText, trim.
    apply rtrim_single_spaced, ltrim_single_spaced, sap_single_spaced,
      sbp_single_spaced, collapse_single_spaced. }
  unfold preprocessText at 1.
  rewrite (camel_id _ Hlu), (collapse_id _ Hss).
  unfold preprocessText.
  pose proof (sbp_npws (collapse (camel x))) as Hnp.
  rewrite <- trim_sbp, <- trim_sap, (proj1 (sap_sbp_sap _ Hnp)).
  apply trim_idem.
Qed.

Section Services.
Variable svc : Services.

Lemma add_chunk_ok u md n i c w p w' :
  add_chunk svc u md n i c w = (Ok p, w') ->
  exists r, p = (rec_id r, c) /\ rec_id r = chunk_id (rec_timestamp r) i /\
    rec_text r = c /\ rec_chunkIndex r = i /\ rec_totalChunks r = n /\
    rec_userId r = u /\ rec_meta r = md /\
    forall ns k, stored w' ns k
                 = if decide (ns = u /\ k = rec_id r) then Some r else stored w ns k.
Proof.
  unfold add_chunk. rewrite bind_run.
  pose proof (getEmbedding_world svc c w) as Hw.
  destruct (getEmbedding svc c w) as [[emb|e] w1]; cbn in Hw; subst w1; [|discriminate].
  unfold date_now, upsert, bind, ret. cbv beta iota zeta.
  match goal with |- context [upsert_svc ?a ?b ?c ?d] => destruct (upsert_svc a b c d) end;
    [discriminate|].
  intros H. injection H as <- <-.
  match goal with |- context [<[_ := <[_ := ?r]> _]> _] => exists r end.
  do 7 (split; [reflexivity|]).
  intros ns k. unfold stored. cbn [store]. apply stored_upsert.
Qed.

Lemma add_chunks_ok u md n cs : forall i w rs w',
  add_chunks svc u md n i cs w = (Ok rs, w') ->
  map snd rs = cs /\
  forall j, j < length cs -> exists r,
    nth_error rs j = Some (rec_id r, nth j cs []) /\
    stored w' u (rec_id r) = Some r /\ rec_id r = chunk_id (rec_timestamp r) (i + j) /\
    rec_text r = nth j cs [] /\ rec_chunkIndex r = i + j /\ rec_totalChunks r = n /\
    rec_userId r = u /\ rec_meta r = md.
Proof.
  induction cs as [|c cs IH]; intros i w rs w' H.
  - injection H as <- <-. split; [reflexivity|]. intros j Hj; cbn in Hj; lia.
  - cbn [add_chunks] in H. rewrite bind_run in H.
    destruct (add_chunk svc u md n i c w) as [[p|e] w1] eqn:E1; [|discriminate].
    destruct (add_chunk_ok u md n i c w p w1 E1)
      as (r & -> & Hid & Ht & Hx & Hn & Hu & Hm & Hst).
    rewrite bind_run in H.
    destruct (add_chunks svc u md n (S i) cs w1) as [[rs'|e] w2] eqn:E2; [|discriminate].
    injection H as <- <-.
    destruct (IH (S i) w1 rs' w2 E2) as [Hmap Hrec].
    split; [cbn; rewrite Hmap; reflexivity|].
    intros [|j] Hj.
    + exists r. rewrite Nat.add_0_r. split; [reflexivity|].
      split.
      { rewrite Hid, (add_chunks_keeps svc u md n cs (S i) w1 w2 (Ok rs') E2) by lia.
        rewrite Hst, <- Hid, decide_True by auto. reflexivity. }
      cbn. auto 7.
    + destruct (IH (S i) w1 rs' w2 E2) as [_ Hr].
      destruct (Hr j) as (r' & ? & ? & ? & ? & ? & ? & ? & ?); [cbn in Hj; lia|].
      exists r'. cbn [nth_error nth]. replace (i + S j) with (S i + j) by lia. auto 8.
Qed.

Lemma add_docs_app_run u md ds1 ds2 : forall w,
  add_docs svc u (ds1 ++ ds2) md w =
  bind (add_docs svc u ds1 md)
       (fun r1 => bind (add_docs svc u ds2 md) (fun r2 => ret (r1 ++ r2)%list)) w.
Proof.
  induction ds1 as [|d ds1 IH]; intros w.
  - cbn [app add_docs]. rewrite bind_run. unfold ret at 1. rewrite bind_run.
    destruct (add_docs svc u ds2 md w) as [[r2|e] w2]; reflexivity.
  - cbn [app add_docs]. rewrite !bind_run.
    destruct (addDocument svc u d md w) as [[r|e] w1]; [|reflexivity].
    rewrite !bind_run, IH, !bind_run.
    destruct (add_docs svc u ds1 md w1) as [[rs1|e] w3]; [|reflexivity].
    unfold ret. cbv beta iota. rewrite !bind_run.
    destruct (add_docs svc u ds2 md w3) as [[rs2|e] w4]; reflexivity.
Qed.

Lemma add_docs_ok u md ds : forall w rs w',
  add_docs svc u ds md w = (Ok rs, w') ->
  length rs = length ds /\ Forall (fun r => add_success r = true) rs.
Proof.
  induction ds as [|d ds IH]; intros w rs w' H.
  - injection H as <- <-. split; [reflexivity|constructor].
  - cbn [add_docs] in H. rewrite bind_run in H.
    destruct (addDocument svc u d md w) as [[r|e] w1] eqn:E; [|discriminate].
    rewrite bind_run in H.
    destruct (add_docs svc u ds md w1) as [[rs'|e] w2] eqn:E2; [|discriminate].
    injection H as <- <-. destruct (IH w1 rs' w2 E2) as [Hl Hs].
    split; [cbn; lia|]. constructor; [|exact Hs].
    rewrite addDocument_run in E. cbv zeta in E.
    destruct (add_chunks _ _ _ _ _ _ _) as [[x|x] ?]; [|discriminate].
    injection E as <- _. reflexivity.
Qed.

Lemma wait_loop_frame m n : forall w,
  store (snd (wait_loop svc m n w)) = store w /\
  index_cfg (snd (wait_loop svc m n w)) = index_cfg w.
Proof.
  induction n as [|n IH]; intros w; [split; reflexivity|].
  rewrite wait_loop_S. destruct (ready_at svc w); [split; reflexivity|].
  destruct (IH (next_attempt svc w)) as [H1 H2]. rewrite H1, H2. split; reflexivity.
Qed.


Lemma print_docs_world docs : forall w, snd (print_docs docs w) = w.
Proof.
  induction docs as [|d docs IH]; intros w; [reflexivity|].
  cbn [print_docs]. rewrite bind_run.
  destruct (doc_text d); try reflexivity; unfold ret; cbv beta iota; rewrite bind_run;
    (destruct (doc_similarity d); try reflexivity; apply IH).
Qed.

Lemma addDocument_ok_chunks u text md w r :
  fst (addDocument svc u text md w) = Ok r ->
  map snd (add_chunks_out r) = splitIntoChunks text CHUNK_SIZE /\
  forall j, j < length (splitIntoChunks text CHUNK_SIZE) -> exists rec,
    stored (snd (addDocument svc u text md w)) u (rec_id rec) = Some rec /\
    rec_text rec = nth j (splitIntoChunks text CHUNK_SIZE) [] /\ rec_meta rec = md.
Proof.
  rewrite addDocument_run. cbv zeta.
  set (chunks := splitIntoChunks text CHUNK_SIZE).
  destruct (add_chunks svc u md (length chunks) 0 chunks w) as [[rs|e] w'] eqn:E;
    [|discriminate].
  intros H. cbn in H. injection H as <-. cbn [add_chunks_out snd].
  destruct (add_chunks_ok u md (length chunks) chunks 0 w rs w' E) as [Hmap Hrec].
  split; [exact Hmap|].
  intros j Hj. destruct (Hrec j Hj) as (rec & _ & ? & _ & ? & _ & _ & _ & ?).
  exists rec. auto.
Qed.

Variable query_svc : World -> string -> jsval -> res jsval.


Lemma askQuestion_world u q b w :
  match findSimilarDocuments svc query_svc u q 3 w with
  | (Err e, w1) => askQuestion svc query_svc u q b w = (Err e, w1)
  | (Ok docs, w1) =>
      snd (askQuestion svc query_svc u q b w)
        = tick svc w1 (CallFetch generate_url (generation_request (context_of docs) q))
  end.
Proof.
  unfold askQuestion, try_catch, throw. rewrite bind_run.
  destruct (findSimilarDocuments svc query_svc u q 3 w) as [[docs|e] w1]; [|reflexivity].
  rewrite bind_run. unfold fetch at 1.
  set (w2 := tick svc w1 (CallFetch generate_url (generation_request (context_of docs) q))).
  destruct (fetch_svc svc w1 generate_url _) as [resp|e]; [|reflexivity].
  destruct (negb (resp_ok resp)); [reflexivity|].
  unfold lift. destruct (resp_json resp) as [result|e]; [|reflexivity].
  destruct b.
  - unfold get_prop; destruct result; reflexivity.
  - pose proof (print_docs_world docs w2) as Hp. rewrite bind_run. cbv beta iota. rewrite bind_run.
    destruct (print_docs docs w2) as [[u0|e0] w3]; cbn in Hp; rewrite Hp.
    + unfold get_prop; destruct result; reflexivity.
    + reflexivity.
Qed.

End Services.

(** A successful [addDocument] reports [success: true] and the number of
    chunks, returns the chunks of [splitIntoChunks text] in order, each
    with its own id, and leaves each chunk stored in the user's namespace
    under that id, with its text, index, chunk count, user and the
    caller's metadata. *)
Theorem addDocument_success (svc : Services) (u : string) (text : jstr)
    (md : list (string * jsval)) (w : World) (r : AddResult)
    (H : fst (addDocument svc u text md w) = Ok r) :
  let chunks := splitIntoChunks text CHUNK_SIZE in
  add_success r = true /\
  add_message r = "Added document with " ++ pretty (length chunks) ++ " chunks" /\
  map snd (add_chunks_out r) = chunks /\
  NoDup (map fst (add_chunks_out r)) /\
  (forall j, j < length chunks -> exists rec,
     nth_error (add_chunks_out r) j = Some (rec_id rec, nth j chunks []) /\
     stored (snd (addDocument svc u text md w)) u (rec_id rec) = Some rec /\
     rec_text rec = nth j chunks [] /\ rec_chunkIndex rec = j /\
     rec_totalChunks rec = length chunks /\ rec_userId rec = u /\ rec_meta rec = md).
Proof.
  intros chunks. rewrite addDocument_run in H |- *. cbv zeta in H |- *. fold chunks in H |- *.
  destruct (add_chunks svc u md (length chunks) 0 chunks w) as [[rs|e] w'] eqn:E;
    [|discriminate].
  cbn in H. injection H as <-. cbn [add_success add_message add_chunks_out snd].
  destruct (add_chunks_ok svc u md (length chunks) chunks 0 w rs w' E) as [Hmap Hrec].
  assert (Hlen : length rs = length chunks) by (rewrite <- Hmap, length_map; reflexivity).
  split; [reflexivity|]. split; [reflexivity|]. split; [exact Hmap|]. split.
  - apply NoDup_ListNoDup, (proj2 (NoDup_nth_error _)). rewrite length_map. intros j k Hj Hjk.
    rewrite !nth_error_map in Hjk. rewrite Hlen in Hj.
    destruct (Hrec j Hj) as (r1 & E1 & _ & Hid1 & _).
    rewrite E1 in Hjk. cbn in Hjk.
    destruct (nth_error rs k) as [[id2 c2]|] eqn:E2; [|discriminate].
    assert (Hk : k < length chunks).
    { rewrite <- Hlen. apply nth_error_Some. congruence. }
    destruct (Hrec k Hk) as (r2 & E2' & _ & Hid2 & _).
    rewrite E2 in E2'. injection E2' as -> _. injection Hjk as Hjk.
    rewrite Hid1, Hid2 in Hjk. apply chunk_id_inj in Hjk. lia.
  - intros j Hj. destruct (Hrec j Hj) as (rec & ? & ? & _ & ? & ? & ? & ? & ?).
    exists rec. auto 8.
Qed.

Lemma addDocument_success_witness :
  let chunks := splitIntoChunks first_doc CHUNK_SIZE in
  let r := mkAddResult true "Added document with 1 chunks"
             [("doc_1700000000000_chunk_0", first_doc)] in
  add_success r = true /\
  add_message r = "Added document with " ++ pretty (length chunks) ++ " chunks" /\
  map snd (add_chunks_out r) = chunks /\
  NoDup (map fst (add_chunks_out r)) /\
  (forall j, j < length chunks -> exists rec,
     nth_error (add_chunks_out r) j = Some (rec_id rec, nth j chunks []) /\
     stored (snd (addDocument instant_services "u" first_doc [] world0)) "u" (rec_id rec)
       = Some rec /\
     rec_text rec = nth j chunks [] /\ rec_chunkIndex rec = j /\
     rec_totalChunks rec = length chunks /\ rec_userId rec = "u" /\ rec_meta rec = []).
Proof.
  apply (addDocument_success instant_services "u" first_doc [] world0).
  vm_compute. reflexivity.
Defined.

(** A text with no sentence (empty, blank, only delimiters) is
    "ingested" without any call: no embedding, no upsert, the world is
    unchanged, and the result reports 0 chunks. *)
Theorem addDocument_no_sentences (svc : Services) (u : string) (text : jstr)
    (md : list (string * jsval)) (w : World)
    (H : splitIntoChunks text CHUNK_SIZE = []) :
  addDocument svc u text md w = (Ok (mkAddResult true "Added document with 0 chunks" []), w).
Proof.
  rewrite addDocument_run. cbv zeta. rewrite H. reflexivity.
Qed.

Lemma addDocument_no_sentences_witness :
  addDocument instant_services "u" (of_ascii " .!? ") [] world0
  = (Ok (mkAddResult true "Added document with 0 chunks" []), world0).
Proof.
  apply (addDocument_no_sentences instant_services "u" (of_ascii " .!? ") [] world0).
  vm_compute. reflexivity.
Defined.

(** Ingesting a batch [ds1 ++ ds2] is ingesting [ds1] and then [ds2],
    with the results concatenated (the second part only runs when the
    first succeeds); a successful batch returns one successful result
    per document, in order. *)
Theorem addDocuments_batch (svc : Services) (u : string) (md : list (string * jsval)) :
  (forall ds1 ds2 w,
     addDocuments svc u (ds1 ++ ds2) md w =
     bind (addDocuments svc u ds1 md)
          (fun r1 => bind (addDocuments svc u ds2 md) (fun r2 => ret (r1 ++ r2)%list)) w) /\
  (forall ds w rs w', addDocuments svc u ds md w = (Ok rs, w') ->
     length rs = length ds /\ Forall (fun r => add_success r = true) rs).
Proof.
  assert (Hrun : forall ds w, addDocuments svc u ds md w = add_docs svc u ds md w).
  { intros ds w. unfold addDocuments, try_catch, throw.
    destruct (add_docs svc u ds md w) as [[]]; reflexivity. }
  split.
  - intros ds1 ds2 w. rewrite Hrun, add_docs_app_run, !bind_run, Hrun.
    destruct (add_docs svc u ds1 md w) as [[r1|e] w1]; [|reflexivity].
    rewrite !bind_run, Hrun. reflexivity.
  - intros ds w rs w' H. rewrite Hrun in H. exact (add_docs_ok svc u md ds w rs w' H).
Qed.

(** [createUserIndex] never changes the stored records; it only ever
    sets the index configuration to dimension 4096 with the cosine
    metric, and does so whenever the index is missing and its creation
    succeeds; a failed creation is reported at once, without polling. *)
Theorem createUserIndex_effects (svc : Services) (u : string) (w : World) :
  store (snd (createUserIndex svc u w)) = store w /\
  (index_cfg (snd (createUserIndex svc u w)) = index_cfg w \/
   index_cfg (snd (createUserIndex svc u w)) = Some (4096%N, "cosine")) /\
  (forall e, describe_svc svc w INDEX_NAME = Err e ->
     create_svc svc (tick svc w (CallDescribe INDEX_NAME)) = None ->
     index_cfg (snd (createUserIndex svc u w)) = Some (4096%N, "cosine")) /\
  (forall e e', describe_svc svc w INDEX_NAME = Err e ->
     create_svc svc (tick svc w (CallDescribe INDEX_NAME)) = Some e' ->
     createUserIndex svc u w
     = (Err e', tick svc (tick svc w (CallDescribe INDEX_NAME))
                  (CallCreate INDEX_NAME 4096 "cosine"))).
Proof.
  set (w1 := tick svc w (CallDescribe INDEX_NAME)).
  set (w2 := mkWorld (store (tick svc w1 (CallCreate INDEX_NAME 4096 "cosine")))
                     (Some (4096%N, "cosine"))
                     (now (tick svc w1 (CallCreate INDEX_NAME 4096 "cosine")))
                     (calls (tick svc w1 (CallCreate INDEX_NAME 4096 "cosine")))).
  assert (Hrun : createUserIndex svc u w =
    match describe_svc svc w INDEX_NAME with
    | Ok _ => (Ok (mkOpResult true ("Index ready for user " ++ u)), w1)
    | Err _ =>
        match create_svc svc w1 with
        | Some e' => (Err e', tick svc w1 (CallCreate INDEX_NAME 4096 "cosine"))
        | None =>
            match waitForIndex svc 10 w2 with
            | (Ok _, w3) => (Ok (mkOpResult true ("Created index and ready for user " ++ u)), w3)
            | (Err e', w3) => (Err e', w3)
            end
        end
    end).
  { unfold createUserIndex, try_catch, bind, ret, throw, describeIndex, createIndex.
    fold w1. destruct (describe_svc svc w INDEX_NAME); [reflexivity|].
    cbv beta iota zeta. destruct (create_svc svc w1); [reflexivity|].
    fold w2. destruct (waitForIndex svc 10 w2) as [[]]; reflexivity. }
  destruct (wait_loop_frame svc 10 10 w2) as [Hs Hc].
  unfold waitForIndex in Hrun.
  rewrite Hrun. destruct (describe_svc svc w INDEX_NAME) as [d|e] eqn:Ed.
  - repeat split; [left; reflexivity| |]; intros ? H; discriminate.
  - destruct (create_svc svc w1) as [e'|] eqn:Ec.
    + split; [reflexivity|]. split; [left; reflexivity|].
      split; [intros ? _ H; fold w1 in H; congruence|].
      intros ? ? _ H. congruence.
    + assert (H2 : index_cfg (snd (match wait_loop svc 10 10 w2 with
                    | (Ok _, w3) => (Ok (mkOpResult true ("Created index and ready for user " ++ u)), w3)
                    | (Err e', w3) => (@Err OpResult e', w3) end)) = Some (4096%N, "cosine")).
      { destruct (wait_loop svc 10 10 w2) as [[] w3] eqn:E; cbn [snd];
          cbn in Hc; exact Hc. }
      assert (H1 : store (snd (match wait_loop svc 10 10 w2 with
                    | (Ok _, w3) => (Ok (mkOpResult true ("Created index and ready for user " ++ u)), w3)
                    | (Err e', w3) => (@Err OpResult e', w3) end)) = store w).
      { destruct (wait_loop svc 10 10 w2) as [[] w3] eqn:E; cbn [snd];
          cbn in Hs; exact Hs. }
      split; [exact H1|]. split; [right; exact H2|].
      split; [intros; exact H2|].
      intros ? ? _ H. fold w1 in H. congruence.
Qed.


(** How [askQuestion] composes: a failure of the retrieval step is
    returned as it is, before any generation request; otherwise the
    generation request carries the retrieved texts joined by blank lines
    as context, and the data returned with [returnData] are the question
    and exactly the retrieved documents; the printing branch returns no
    data. *)
Theorem askQuestion_flow (svc : Services) (query_svc : World -> string -> jsval -> res jsval)
    (u : string) (q : jstr) (b : bool) (w : World) :
  match findSimilarDocuments svc query_svc u q 3 w with
  | (Err e, w1) => askQuestion svc query_svc u q b w = (Err e, w1)
  | (Ok docs, w1) =>
      snd (askQuestion svc query_svc u q b w)
        = tick svc w1 (CallFetch generate_url (generation_request (context_of docs) q)) /\
      (forall a, fst (askQuestion svc query_svc u q b w) = Ok (Some a) ->
         b = true /\ ask_question a = q /\ relevantDocuments a = docs)
  end.
Proof.
  pose proof (askQuestion_world svc query_svc u q b w) as Hw.
  destruct (findSimilarDocuments svc query_svc u q 3 w) as [[docs|e] w1] eqn:Ef; [|exact Hw].
  split; [exact Hw|].
  intros a. unfold askQuestion, try_catch, throw. rewrite bind_run, Ef, bind_run.
  unfold fetch at 1. cbv beta iota.
  destruct (fetch_svc svc w1 generate_url _) as [resp|e];
    [|intros Hx; cbn in Hx; discriminate].
  destruct (negb (resp_ok resp)); [intros Hx; cbn in Hx; discriminate|].
  unfold lift. destruct (resp_json resp) as [result|e]; [|intros Hx; cbn in Hx; discriminate].
  destruct b.
  - unfold get_prop; destruct result; intros Hx; cbn in Hx; try discriminate;
      injection Hx as <-; auto.
  - rewrite bind_run. cbv beta iota. rewrite bind_run.
    destruct (print_docs docs _) as [[] w3]; [|intros Hx; cbn in Hx; discriminate].
    unfold get_prop; destruct result; intros Hx; cbn in Hx; discriminate.
Qed.

(** [processPdfBuffer] changes nothing; it succeeds exactly when the
    parser yields an object whose [text] is a string, with that string
    normalised, and reports every other outcome (a parse error, a missing
    or non-string text) as [Error("Failed to process PDF file")]. *)
Theorem processPdfBuffer_outcome (pdfParse : buffer -> res jsval) (buf : buffer) (w : World) :
  snd (processPdfBuffer pdfParse buf w) = w /\
  fst (processPdfBuffer pdfParse buf w) =
    match pdfParse buf with
    | Ok (JObj fields) =>
        match lookup_field fields "text" with
        | JStr s => Ok (preprocessText s)
        | _ => Err pdf_failure
        end
    | _ => Err pdf_failure
    end.
Proof.
  unfold processPdfBuffer, try_catch, throw, lift. rewrite bind_run.
  destruct (pdfParse buf) as [data|e]; [|split; reflexivity].
  unfold get_prop. destruct data; try (split; reflexivity).
  unfold ret at 1. cbv beta iota.
  destruct (lookup_field fields "text"); split; reflexivity.
Qed.

(** A successful [addPdfDocument] stores the chunks of the parsed text
    itself (normalising it a second time changes nothing), and every
    stored chunk's metadata has [documentType] ['pdf'], whatever
    metadata the caller passed. *)
Theorem addPdfDocument_success (svc : Services) (pdfParse : buffer -> res jsval)
    (u : string) (buf : buffer) (md : list (string * jsval)) (w : World) (r : AddResult)
    (H : fst (addPdfDocument svc pdfParse u buf md w) = Ok r) :
  exists fields s,
    pdfParse buf = Ok (JObj fields) /\ lookup_field fields "text" = JStr s /\
    map snd (add_chunks_out r) = splitIntoChunks s CHUNK_SIZE /\
    forall j, j < length (splitIntoChunks s CHUNK_SIZE) -> exists rec,
      stored (snd (addPdfDocument svc pdfParse u buf md w)) u (rec_id rec) = Some rec /\
      rec_text rec = nth j (splitIntoChunks s CHUNK_SIZE) [] /\
      lookup_field (rec_meta rec) "documentType" = JStr (of_ascii "pdf").
Proof.
  pose proof (processPdfBuffer_outcome pdfParse buf w) as [Hw Hr].
  set (md' := (md ++ [("documentType", JStr (of_ascii "pdf"))])%list).
  assert (Hrun : addPdfDocument svc pdfParse u buf md w =
    match processPdfBuffer pdfParse buf w with
    | (Ok text, w1) => addDocument svc u text md' w1
    | (Err e, w1) => (Err e, w1)
    end).
  { unfold addPdfDocument, try_catch, throw. rewrite bind_run.
    destruct (processPdfBuffer pdfParse buf w) as [[text|e] w1]; [|reflexivity].
    subst md'. destruct (addDocument svc u text _ w1) as [[]]; reflexivity. }
  rewrite Hrun in H |- *.
  destruct (processPdfBuffer pdfParse buf w) as [[text|e] w1]; cbn in Hw, Hr; subst w1;
    [|discriminate].
  destruct (pdfParse buf) as [[| | | | | |fields]|e]; try discriminate.
  destruct (lookup_field fields "text") as [| | | |s| |] eqn:Et; try discriminate.
  injection Hr as ->.
  destruct (addDocument_ok_chunks svc u (preprocessText s) md' w r H) as [Hmap Hrec].
  unfold splitIntoChunks in Hmap, Hrec. rewrite preprocess_twice in Hmap, Hrec.
  fold (splitIntoChunks s CHUNK_SIZE) in Hmap, Hrec.
  exists fields, s. split; [reflexivity|]. split; [exact Et|]. split; [exact Hmap|].
  intros j Hj. destruct (Hrec j Hj) as (rec & Hs & Ht & Hm).
  exists rec. split; [exact Hs|]. split; [exact Ht|].
  rewrite Hm. subst md'. unfold lookup_field. rewrite rev_app_distr. reflexivity.
Qed.


Lemma get_prop_ok v key w x w' :
  get_prop v key w = (Ok x, w') -> w' = w /\ forall w0, get_prop v key w0 = (Ok x, w0).
Proof.
  destruct v; cbn; unfold ret, throw; intros H; injection H as <- <-; auto; discriminate.
Qed.

Lemma map_matches_ok ms : forall w docs w',
  map_matches ms w = (Ok docs, w') ->
  Forall2 (fun m d => forall w0,
      get_prop m "metadata" w0 = (Ok (doc_metadata d), w0) /\
      get_prop (doc_metadata d) "text" w0 = (Ok (doc_text d), w0) /\
      get_prop m "score" w0 = (Ok (doc_similarity d), w0)) ms docs.
Proof.
  induction ms as [|m ms IH]; intros w docs w' H.
  - injection H as <- _. constructor.
  - cbn [map_matches] in H. rewrite bind_run in H.
    destruct (get_prop m "metadata" w) as [[md|e] w1] eqn:E1; [|discriminate].
    apply get_prop_ok in E1 as [-> E1].
    rewrite bind_run in H.
    destruct (get_prop md "text" w) as [[t|e] w2] eqn:E2; [|discriminate].
    apply get_prop_ok in E2 as [-> E2].
    rewrite bind_run in H.
    destruct (get_prop m "score" w) as [[sc|e] w3] eqn:E3; [|discriminate].
    apply get_prop_ok in E3 as [-> E3].
    rewrite bind_run in H.
    destruct (map_matches ms w) as [[ds|e] w4] eqn:E4; [|discriminate].
    injection H as <- _. constructor; [|exact (IH w ds w4 E4)].
    intros w0. cbn [doc_metadata doc_text doc_similarity]. auto.
Qed.

(** A successful [findSimilarDocuments] embedded the question, queried
    the user's namespace with that vector, [topK] and
    [includeMetadata: true], and returns one document per match of the
    answer, in order, with the match's [metadata.text], [score] and
    [metadata]. *)
Theorem findSimilarDocuments_result (svc : Services)
    (query_svc : World -> string -> jsval -> res jsval)
    (u : string) (q : jstr) (k : nat) (w : World) (docs : list SimilarDoc)
    (H : fst (findSimilarDocuments svc query_svc u q k w) = Ok docs) :
  exists emb fs ms,
    fst (getEmbedding svc q w) = Ok emb /\
    query_svc (tick svc w (CallFetch embeddings_url (embedding_request q))) u
      (JObj [("vector", emb); ("topK", JNum (Z.of_nat k)); ("includeMetadata", JBool true)])
      = Ok (JObj fs) /\
    lookup_field fs "matches" = JArr ms /\
    Forall2 (fun m d => forall w0,
        get_prop m "metadata" w0 = (Ok (doc_metadata d), w0) /\
        get_prop (doc_metadata d) "text" w0 = (Ok (doc_text d), w0) /\
        get_prop m "score" w0 = (Ok (doc_similarity d), w0)) ms docs.
Proof.
  revert H. unfold findSimilarDocuments, try_catch, getIndex, throw. rewrite !bind_run.
  unfold ret at 1. cbv beta iota. rewrite bind_run.
  pose proof (getEmbedding_world svc q w) as Hw.
  destruct (getEmbedding svc q w) as [[emb|e] w1] eqn:Ee; cbn in Hw; subst w1;
    [|intros Hx; cbn in Hx; discriminate].
  rewrite bind_run. unfold query.
  destruct (query_svc _ u _) as [qr|e] eqn:Eq; [|intros Hx; cbn in Hx; discriminate].
  rewrite bind_run. unfold get_prop at 1.
  destruct qr as [| | | | |xs|fs]; unfold throw, ret; cbv beta iota;
    try (intros Hx; cbn in Hx; discriminate).
  destruct (lookup_field fs "matches") as [| | | | |ms|] eqn:Em;
    try (intros Hx; cbn in Hx; discriminate).
  destruct (map_matches ms _) as [[ds|e] w2] eqn:E; intros Hx; cbn in Hx; [|discriminate].
  injection Hx as <-. exists emb, fs, ms. split; [reflexivity|]. split; [exact Eq|].
  split; [exact Em|]. exact (map_matches_ok ms _ ds w2 E).
Qed.

Lemma findSimilarDocuments_result_witness :
  let docs := [mkSimilarDoc (JStr (of_ascii "Hello."))  (JNum 1)
                 (JObj [("text", JStr (of_ascii "Hello."))])] in
  fst (findSimilarDocuments instant_services one_match_query "u" (of_ascii "Hi?") 3 world0)
    = Ok docs /\
  exists emb fs ms,
    fst (getEmbedding instant_services (of_ascii "Hi?") world0) = Ok emb /\
    one_match_query (tick instant_services world0
                       (CallFetch embeddings_url (embedding_request (of_ascii "Hi?")))) "u"
      (JObj [("vector", emb); ("topK", JNum (Z.of_nat 3)); ("includeMetadata", JBool true)])
      = Ok (JObj fs) /\
    lookup_field fs "matches" = JArr ms /\
    Forall2 (fun m d => forall w0,
        get_prop m "metadata" w0 = (Ok (doc_metadata d), w0) /\
        get_prop (doc_metadata d) "text" w0 = (Ok (doc_text d), w0) /\
        get_prop m "score" w0 = (Ok (doc_similarity d), w0)) ms docs.
Proof.
  split; [vm_compute; reflexivity|].
  apply (findSimilarDocuments_result instant_services one_match_query "u" (of_ascii "Hi?") 3 world0).
  vm_compute. reflexivity.
Defined.

(** [clearIndex u] empties namespace [u] when [deleteAll] succeeds, and
    never touches another namespace, nor namespace [u] when [deleteAll]
    fails; the index configuration is unchanged either way. *)
Theorem clearIndex_effect (svc : Services) (u : string) (w : World) :
  index_cfg (snd (clearIndex svc u w)) = index_cfg w /\
  forall ns k, stored (snd (clearIndex svc u w)) ns k =
    match deleteAll_svc svc w u with
    | None => if decide (ns = u) then None else stored w ns k
    | Some _ => stored w ns k
    end.
Proof.
  rewrite clearIndex_run. unfold stored.
  destruct (deleteAll_svc svc w u); cbn [snd index_cfg store]; split; try reflexivity.
  intros ns k. destruct (decide (ns = u)) as [->|Hne].
  - rewrite lookup_delete_eq. reflexivity.
  - rewrite lookup_delete_ne by congruence. reflexivity.
Qed.

Lemma addPdfDocument_success_witness :
  let md := [("documentType", JStr (of_ascii "x"))] in
  let r := mkAddResult true "Added document with 1 chunks"
             [("doc_1700000000000_chunk_0", of_ascii "Hello world.")] in
  fst (addPdfDocument instant_services hello_pdf "u" [] md world0) = Ok r /\
  exists fields s,
    hello_pdf [] = Ok (JObj fields) /\ lookup_field fields "text" = JStr s /\
    map snd (add_chunks_out r) = splitIntoChunks s CHUNK_SIZE /\
    forall j, j < length (splitIntoChunks s CHUNK_SIZE) -> exists rec,
      stored (snd (addPdfDocument instant_services hello_pdf "u" [] md world0)) "u" (rec_id rec)
        = Some rec /\
      rec_text rec = nth j (splitIntoChunks s CHUNK_SIZE) [] /\
      lookup_field (rec_meta rec) "documentType" = JStr (of_ascii "pdf").
Proof.
  split; [vm_compute; reflexivity|].
  apply (addPdfDocument_success instant_services hello_pdf "u" []
           [("documentType", JStr (of_ascii "x"))] world0).
  vm_compute. reflexivity.
Defined.

End ServiceMore.
